(** * SimpleHeadTracker: head pose to game command

    A shallow embedding of [src/simple_head_tracker.js] and the properties of
    its calibration, classification and smoothing pipeline.

    JavaScript numbers are IEEE 754 binary64 values; pitch angles and
    thresholds are therefore modelled with Rocq's primitive floats, whose
    operations are the same binary64 operations.  Array lengths and indices
    are natural numbers, vote weights are integers.  The mean of a
    calibration window is also given over the rationals, to compare the
    calibrator's floating-point average with. *)

From Stdlib Require Import String Floats ZArith List Bool Lia PeanoNat Uint63.
From Stdlib Require Import Sorted Permutation QArith.
Import ListNotations.

Close Scope Q_scope.

Local Open Scope float_scope.
#[local] Set Warnings "-inexact-float".

(** ** Data model *)

(** The three strings that [determineHeadPose] returns and that travel through
    [poseHistory] and [currentHeadPose]. *)
Inductive Pose : Set := up | down | neutral.

(** [===] on pose strings. *)
Definition pose_eqb (a b : Pose) : bool :=
  match a, b with
  | up, up | down, down | neutral, neutral => true
  | _, _ => false
  end.

(** The object returned by [calculateHeadPose] ([headData]). *)
Record PoseSample : Set := mkPoseSample {
  pitch : float;
  eyeToNose : float;
  chinAngle : float;
  confidence : float
}.

(** One normalised landmark of the face mesh. *)
Module Landmark.
Record t : Set := mk { x : float; y : float }.
End Landmark.

(** The object handed to the game by [getCurrentInput]. *)
Module Input.
Record t : Set := mk { up : bool; down : bool; left : bool; right : bool }.
End Input.

(** What the calibrate button shows.  The page is only modelled as far as
    this button goes: its label records which calibration branch ran.  The
    status line, the indicator and the debug panel are written by [updateUI]
    and never read back, and console output is not kept. *)
Inductive ButtonText : Set :=
| TxtPage                               (* whatever the page shows at load *)
| TxtKeepNeutral                        (* 'Calibrating... Keep head neutral!' *)
| TxtCalibrating (percentage : float)   (* `Calibrating... ${percentage}%` *)
| TxtCalibrated                         (* 'Head Tracking Calibrated!' *)
| TxtActiveDefault                      (* 'Head Tracking Active (Default)' *)
| TxtRecalibrating                      (* 'Recalibrating...' *)
| TxtEnable.                            (* 'Enable Head Tracking' *)

Record Button : Set := mkButton {
  textContent : ButtonText;
  background : string
}.

(** The fields of a [SimpleHeadTracker] instance that its methods read or
    write after construction.  [maxHistoryLength], [calibrationFrames] and
    [minConfidenceFrames] are assigned once in the constructor and never
    again; they are the constants below. *)
Record Tracker : Set := mkTracker {
  isInitialized : bool;
  currentHeadPose : Pose;
  poseHistory : list Pose;
  isCalibrated : bool;
  neutralPosition : option float;        (* null, or { pitch } *)
  calibrationSamples : list PoseSample;
  upThreshold : float;
  downThreshold : float;
  calibrateButton : Button
}.

Definition maxHistoryLength : nat := 3.
Definition calibrationFrames : nat := 60.
Definition minConfidenceFrames : Z := 2.

(** An array length used as a number. *)
Definition float_of_nat (n : nat) : float :=
  PrimFloat.of_uint63 (Uint63.of_Z (Z.of_nat n)).

(** The constructor, before [init] has run. *)
Definition constructor : Tracker :=
  {| isInitialized := false;
     currentHeadPose := neutral;
     poseHistory := [];
     isCalibrated := false;
     neutralPosition := None;
     calibrationSamples := [];
     upThreshold := -5;
     downThreshold := 5;
     calibrateButton := mkButton TxtPage "" |}.

(** ** Calibrator *)

Definition setDefaultCalibration (t : Tracker) : Tracker :=
  {| isInitialized := isInitialized t;
     currentHeadPose := currentHeadPose t;
     poseHistory := poseHistory t;
     isCalibrated := true;
     neutralPosition := Some 0;
     calibrationSamples := calibrationSamples t;
     upThreshold := -5;
     downThreshold := 5;
     calibrateButton := mkButton TxtActiveDefault "#00AA00" |}.

(** [calibrationSamples.reduce((sum, sample) => sum + sample.pitch, 0)
     / calibrationSamples.length] *)
Definition avgPitch (samples : list PoseSample) : float :=
  fold_left (fun sum sample => sum + pitch sample) samples 0
  / float_of_nat (length samples).

Definition finishCalibration (t : Tracker) : Tracker :=
  if (10 <? length (calibrationSamples t))%nat then
    let avg := avgPitch (calibrationSamples t) in
    {| isInitialized := isInitialized t;
       currentHeadPose := currentHeadPose t;
       poseHistory := poseHistory t;
       isCalibrated := true;
       neutralPosition := Some avg;
       calibrationSamples := calibrationSamples t;
       upThreshold := avg - 5;
       downThreshold := avg + 5;
       calibrateButton := mkButton TxtCalibrated "#00AA00" |}
  else setDefaultCalibration t.

(** ** Command classifier *)

Definition determineHeadPose (t : Tracker) (headData : PoseSample) : Pose :=
  if negb (isCalibrated t) then neutral
  else
    let pitch := pitch headData in
    if pitch <? upThreshold t then down
    else if downThreshold t <? pitch then up
    else neutral.

(** ** Temporal stabilizer *)

(** The [counts] object: keys in insertion order, which is the order in which
    [Object.entries] lists them. *)
Definition Counts : Set := list (Pose * Z).

(** [counts[pose] = (counts[pose] || 0) + weight] *)
Fixpoint addWeight (counts : Counts) (pose : Pose) (weight : Z) : Counts :=
  match counts with
  | [] => [(pose, 0 + weight)%Z]
  | (k, v) :: rest =>
      if pose_eqb k pose then (k, (v + weight)%Z) :: rest
      else (k, v) :: addWeight rest pose weight
  end.

(** The body of the [forEach] over [poseHistory], entry [index] onwards;
    [len] is [poseHistory.length]. *)
Fixpoint countFrom (len index : nat) (poses : list Pose) (counts : Counts)
  : Counts :=
  match poses with
  | [] => counts
  | pose :: rest =>
      let weight := if (index =? len - 1)%nat then 2%Z else 1%Z in
      countFrom len (S index) rest (addWeight counts pose weight)
  end.

Definition countPoses (poseHistory : list Pose) : Counts :=
  countFrom (length poseHistory) 0 poseHistory [].

(** The comparator [(a, b) => b[1] - a[1]]. *)
Definition byWeightDesc (a b : Pose * Z) : Z := (snd b - snd a)%Z.

(** [Array.prototype.sort] is stable: an entry moves in front of exactly
    those earlier entries that the comparator orders after it. *)
Fixpoint insertSorted (e : Pose * Z) (sorted : Counts) : Counts :=
  match sorted with
  | [] => [e]
  | a :: rest =>
      if (0 <? byWeightDesc a e)%Z then e :: a :: rest
      else a :: insertSorted e rest
  end.

Definition sortEntries (entries : Counts) : Counts :=
  fold_left (fun sorted e => insertSorted e sorted) entries [].

Definition getSmoothedPose (t : Tracker) : Pose :=
  match poseHistory t with
  | [] => neutral
  | _ :: _ =>
      match sortEntries (countPoses (poseHistory t)) with
      | topPose :: _ =>
          if negb (pose_eqb (fst topPose) neutral)
             && (minConfidenceFrames <=? snd topPose)%Z
          then fst topPose
          else neutral
      | [] => neutral   (* not reached: a non-empty history has an entry *)
      end
  end.

Definition set_history (t : Tracker) (h : list Pose) : Tracker :=
  {| isInitialized := isInitialized t;
     currentHeadPose := currentHeadPose t;
     poseHistory := h;
     isCalibrated := isCalibrated t;
     neutralPosition := neutralPosition t;
     calibrationSamples := calibrationSamples t;
     upThreshold := upThreshold t;
     downThreshold := downThreshold t;
     calibrateButton := calibrateButton t |}.

Definition set_currentHeadPose (t : Tracker) (p : Pose) : Tracker :=
  {| isInitialized := isInitialized t;
     currentHeadPose := p;
     poseHistory := poseHistory t;
     isCalibrated := isCalibrated t;
     neutralPosition := neutralPosition t;
     calibrationSamples := calibrationSamples t;
     upThreshold := upThreshold t;
     downThreshold := downThreshold t;
     calibrateButton := calibrateButton t |}.

Definition set_samples (t : Tracker) (s : list PoseSample) : Tracker :=
  {| isInitialized := isInitialized t;
     currentHeadPose := currentHeadPose t;
     poseHistory := poseHistory t;
     isCalibrated := isCalibrated t;
     neutralPosition := neutralPosition t;
     calibrationSamples := s;
     upThreshold := upThreshold t;
     downThreshold := downThreshold t;
     calibrateButton := calibrateButton t |}.

Definition set_button (t : Tracker) (b : Button) : Tracker :=
  {| isInitialized := isInitialized t;
     currentHeadPose := currentHeadPose t;
     poseHistory := poseHistory t;
     isCalibrated := isCalibrated t;
     neutralPosition := neutralPosition t;
     calibrationSamples := calibrationSamples t;
     upThreshold := upThreshold t;
     downThreshold := downThreshold t;
     calibrateButton := b |}.

(** [push], then one [shift] when the array got longer than
    [maxHistoryLength]. *)
Definition pushPose (poseHistory : list Pose) (newPose : Pose) : list Pose :=
  let pushed := poseHistory ++ [newPose] in
  if (maxHistoryLength <? length pushed)%nat then tl pushed else pushed.

Definition updateHeadPose (t : Tracker) (newPose : Pose) (headData : PoseSample)
  : Tracker :=
  let t1 := set_history t (pushPose (poseHistory t) newPose) in
  set_currentHeadPose t1 (getSmoothedPose t1).

(** ** Command accessor *)

Definition getCurrentInput (t : Tracker) : option Input.t :=
  if negb (isInitialized t) || negb (isCalibrated t) then None
  else if negb (pose_eqb (currentHeadPose t) neutral) then
    Some {| Input.up := pose_eqb (currentHeadPose t) up;
            Input.down := pose_eqb (currentHeadPose t) down;
            Input.left := false;
            Input.right := false |}
  else None.

(** ** Lifecycle *)

(** [recalibrate], apart from the timer it sets (see [step]). *)
Definition recalibrate (t : Tracker) : Tracker :=
  {| isInitialized := isInitialized t;
     currentHeadPose := neutral;
     poseHistory := [];
     isCalibrated := false;
     neutralPosition := neutralPosition t;
     calibrationSamples := [];
     upThreshold := upThreshold t;
     downThreshold := downThreshold t;
     calibrateButton := mkButton TxtRecalibrating "#FF8C00" |}.

Definition stopHeadTracking (t : Tracker) : Tracker :=
  {| isInitialized := false;
     currentHeadPose := currentHeadPose t;
     poseHistory := poseHistory t;
     isCalibrated := false;
     neutralPosition := neutralPosition t;
     calibrationSamples := calibrationSamples t;
     upThreshold := upThreshold t;
     downThreshold := downThreshold t;
     calibrateButton := mkButton TxtEnable "#8B4513" |}.

(** The tail of [init] once the camera and the detector are up, apart from
    the timer it sets. *)
Definition initDone (t : Tracker) : Tracker :=
  {| isInitialized := true;
     currentHeadPose := currentHeadPose t;
     poseHistory := poseHistory t;
     isCalibrated := isCalibrated t;
     neutralPosition := neutralPosition t;
     calibrationSamples := calibrationSamples t;
     upThreshold := upThreshold t;
     downThreshold := downThreshold t;
     calibrateButton := mkButton TxtKeepNeutral "#FF8C00" |}.

(** What the detector passes to [processResults]: [multiFaceLandmarks] may be
    missing, and otherwise holds one landmark array per detected face. *)
Record Results : Set := mkResults {
  multiFaceLandmarks : option (list (list Landmark.t))
}.

(** ** Frame processing

    [Math.atan2] and [Math.round] are supplied by the JavaScript engine. *)
Section FrameProcessing.

Variable atan2 : float -> float -> float.
Variable round : float -> float.

Definition PI : float := 3.141592653589793.

Definition updateCalibrationUI (t : Tracker) (progress : nat) : Tracker :=
  let percentage :=
    round (float_of_nat progress / float_of_nat calibrationFrames * 100) in
  let t1 :=
    set_button t (mkButton (TxtCalibrating percentage)
                           (background (calibrateButton t))) in
  if (calibrationFrames <=? progress)%nat then finishCalibration t1 else t1.

Definition startCalibration (t : Tracker) : Tracker :=
  updateCalibrationUI (set_samples t []) 0.

(** Reading a property of a landmark that is not in the array raises a
    [TypeError]: the result is then [None]. *)
Definition calculateHeadPose (landmarks : list Landmark.t)
  : option PoseSample :=
  let chin :=
    match nth_error landmarks 175 with
    | Some c => Some c
    | None => nth_error landmarks 18
    end in
  match nth_error landmarks 1, chin, nth_error landmarks 33,
        nth_error landmarks 362, nth_error landmarks 10 with
  | Some noseTip, Some chin, Some leftEye, Some rightEye, Some forehead =>
      let eyeLevel := (Landmark.y leftEye + Landmark.y rightEye) / 2 in
      let faceHeight := abs (Landmark.y chin - Landmark.y forehead) in
      let eyeToNoseRatio := (eyeLevel - Landmark.y noseTip) / faceHeight in
      let noseToChain_x := Landmark.x chin - Landmark.x noseTip in
      let noseToChain_y := Landmark.y chin - Landmark.y noseTip in
      let noseChinAngle :=
        atan2 noseToChain_y noseToChain_x * 180 / PI - 90 in
      let eyeBasedPitch := eyeToNoseRatio * 60 in
      let angleBasedPitch := noseChinAngle in
      let pitch := eyeBasedPitch * 0.7 + angleBasedPitch * 0.3 in
      Some {| pitch := pitch;
              eyeToNose := eyeToNoseRatio;
              chinAngle := noseChinAngle;
              confidence := 0.9 |}
  | _, _, _, _, _ => None
  end.

(** [None] when [calculateHeadPose] raised; no field has been written by
    then. *)
Definition processResults (t : Tracker) (results : Results)
  : option Tracker :=
  match multiFaceLandmarks results with
  | None | Some [] => Some t
  | Some (landmarks :: _) =>
      match calculateHeadPose landmarks with
      | None => None
      | Some headData =>
          if negb (isCalibrated t) then
            if (length (calibrationSamples t) <? calibrationFrames)%nat then
              let t1 := set_samples t (calibrationSamples t ++ [headData]) in
              Some (updateCalibrationUI t1 (length (calibrationSamples t1)))
            else Some t
          else
            let headPose := determineHeadPose t headData in
            Some (updateHeadPose t headPose headData)
      end
  end.

(** *** The tracker among its callers

    The page drives a tracker through callbacks: the end of [init], the
    detector's results, the button's click handlers, and the timers that
    [init] and [recalibrate] set for [startCalibration]. *)
Inductive Event : Set :=
| InitDone
| Frame (results : Results)
| StartCalibrationTimer
| ClickCalibrate
| ClickStop.

Record World : Set := mkWorld {
  tracker : Tracker;
  pendingStartCalibration : nat     (* timers set and not yet fired *)
}.

(** [None]: the event cannot occur (no timer is pending). *)
Definition step (w : World) (e : Event) : option World :=
  match e with
  | InitDone =>
      Some (mkWorld (initDone (tracker w)) (S (pendingStartCalibration w)))
  | Frame results =>
      match processResults (tracker w) results with
      | Some t => Some (mkWorld t (pendingStartCalibration w))
      | None => Some w     (* the exception goes back to the detector *)
      end
  | StartCalibrationTimer =>
      match pendingStartCalibration w with
      | O => None
      | S n => Some (mkWorld (startCalibration (tracker w)) n)
      end
  | ClickCalibrate =>
      Some (mkWorld (recalibrate (tracker w)) (S (pendingStartCalibration w)))
  | ClickStop =>
      Some (mkWorld (stopHeadTracking (tracker w)) (pendingStartCalibration w))
  end.

Fixpoint run (w : World) (events : list Event) : option World :=
  match events with
  | [] => Some w
  | e :: rest =>
      match step w e with
      | Some w' => run w' rest
      | None => None
      end
  end.

(** A frame in which the detector found a face. *)
Definition hasFace (e : Event) : bool :=
  match e with
  | Frame (mkResults (Some (_ :: _))) => true
  | _ => false
  end.

End FrameProcessing.

(** ** Quantities the properties speak about *)

(** [counts[pose] || 0] *)
Fixpoint weightOf (counts : Counts) (pose : Pose) : Z :=
  match counts with
  | [] => 0%Z
  | (k, v) :: rest => if pose_eqb k pose then v else weightOf rest pose
  end.

(** The weight that the [forEach] gives to [k] consecutive entries starting
    at [index]: one each, and one more when the last index is among them. *)
Definition runWeight (len index k : nat) : Z :=
  (Z.of_nat k
   + if ((index <=? len - 1) && (len - 1 <? index + k))%nat then 1 else 0)%Z.

(** The vote as the design describes it: every entry of the window counts
    once, and the most recent entry counts once more. *)
Definition voteFor (poseHistory : list Pose) (pose : Pose) : Z :=
  (Z.of_nat (length (filter (pose_eqb pose) poseHistory))
   + match rev poseHistory with
     | latest :: _ => if pose_eqb pose latest then 1 else 0
     | [] => 0
     end)%Z.

(** Descending by weight. *)
Definition heavierFirst (a b : Pose * Z) : Prop := (snd b <= snd a)%Z.

(** The entries of weight [w], in the order they have in [entries]. *)
Definition ofWeight (w : Z) (entries : Counts) : Counts :=
  filter (fun e => (snd e =? w)%Z) entries.

(** The frames of [events] in which a face was found. *)
Definition faces (events : list Event) : nat :=
  length (filter hasFace events).

(** ** Sample inputs *)

Definition sampleAt (p : float) : PoseSample := mkPoseSample p 0 0 0.9.

(** A tracker that is initialised and runs on the default calibration. *)
Definition activeDefault : Tracker := setDefaultCalibration (initDone constructor).

Definition withHistory (h : list Pose) : Tracker := set_history activeDefault h.

(** An active tracker that is emitting [up]. *)
Definition activeUp : Tracker :=
  set_currentHeadPose (withHistory [up; up]) up.

(** An initialised tracker that has collected [n] samples of pitch [p]. *)
Definition collecting (n : nat) (p : float) : Tracker :=
  set_samples (initDone constructor) (repeat (sampleAt p) n).

(** A face mesh of 478 landmarks, upright: forehead (10) above the eyes
    (33, 362), the nose tip (1) in the middle, the chin (175) straight
    below it. *)
Definition uprightFace : list Landmark.t :=
  map (fun i =>
         if (i =? 10)%nat then Landmark.mk 0.5 0.2
         else if (i =? 33)%nat then Landmark.mk 0.4 0.4
         else if (i =? 362)%nat then Landmark.mk 0.6 0.4
         else if (i =? 175)%nat then Landmark.mk 0.5 0.8
         else Landmark.mk 0.5 0.5)
      (seq 0 478).

Definition faceFrame : Results := mkResults (Some [uprightFace]).
Definition emptyFrame : Results := mkResults (Some []).

(** [Math.atan2] where the sample face needs it: the chin lies straight below
    the nose tip, at a quarter turn. *)
Definition atan2_below (y x : float) : float := 1.5707963267948966.

(** [Math.round] where the calibration progress needs it: away from ties
    and below 2^51, adding and removing 2^52 rounds to the nearest integer. *)
Definition round_small (v : float) : float :=
  v + 4503599627370496 - 4503599627370496.

(** ** Further quantities and sample inputs *)


(** A click on the calibrate or the stop button. *)
Definition isClick (e : Event) : bool :=
  match e with
  | ClickCalibrate | ClickStop => true
  | _ => false
  end.

(** The labels of a window in the order in which they first occur. *)
Definition seenOrder (poseHistory : list Pose) : list Pose :=
  fold_left
    (fun seen pose =>
       if existsb (pose_eqb pose) seen then seen else seen ++ [pose])
    poseHistory [].

Definition isFrame (e : Event) : bool :=
  match e with
  | Frame _ => true
  | _ => false
  end.


Definition isInitDone (e : Event) : bool :=
  match e with
  | InitDone => true
  | _ => false
  end.

(** Neither a number nor finite, read off the IEEE value. *)
Definition nonFiniteSF (v : spec_float) : bool :=
  match v with
  | S754_nan | S754_infinity _ => true
  | _ => false
  end.

(** A finite number other than zero. *)
Definition finiteNonzeroSF (v : spec_float) : bool :=
  match v with
  | S754_finite _ _ _ => true
  | _ => false
  end.

(** A face mesh whose chin (175) and forehead (10) lie at one height, so
    that [faceHeight] is 0. *)
Definition flatFace : list Landmark.t :=
  map (fun i =>
         if (i =? 33)%nat then Landmark.mk 0.4 0.4
         else if (i =? 362)%nat then Landmark.mk 0.6 0.4
         else Landmark.mk 0.5 0.5)
      (seq 0 478).

(** ** The game that polls the tracker

    [GazelleRunner.update] reads the tracker through [getCurrentInput] on
    every tick and hands the result to [Gazelle.update]; collisions are
    checked against the obstacles' rectangles.  Only the fields that these
    methods read or write are kept. *)

(** A value read from [InputManager.keys]: [None] is [undefined]. *)
Definition JsFlag : Set := option bool.

Definition truthy (f : JsFlag) : bool :=
  match f with
  | Some true => true
  | _ => false
  end.

(** [a || b] *)
Definition orElse (a b : JsFlag) : JsFlag := if truthy a then a else b.

Module InputManager.

(** The [keys] object, by key code. *)
Definition Keys : Set := string -> JsFlag.

Definition noKeys : Keys := fun _ => None.

Definition handleKeyDown (keys : Keys) (code : string) : Keys :=
  fun k => if String.eqb k code then Some true else keys k.

Definition handleKeyUp (keys : Keys) (code : string) : Keys :=
  fun k => if String.eqb k code then Some false else keys k.

Record Input : Set := mkInput {
  up : JsFlag; down : JsFlag; left : JsFlag; right : JsFlag
}.

Definition getInput (keys : Keys) : option Input :=
  let input :=
    {| up := orElse (orElse (keys "Space"%string) (keys "ArrowUp"%string)) (keys "KeyW"%string);
       down := orElse (keys "ArrowDown"%string) (keys "KeyS"%string);
       left := orElse (keys "ArrowLeft"%string) (keys "KeyA"%string);
       right := orElse (keys "ArrowRight"%string) (keys "KeyD"%string) |} in
  if truthy (orElse (orElse (orElse (up input) (down input)) (left input))
                    (right input))
  then Some input else None.

End InputManager.

(** The [input] of a tick: the keyboard's object, or the object of a
    tracker ([getCurrentInput] or [GazeTracker.getCurrentGaze]). *)
Inductive GameInput : Set :=
| FromKeys (input : InputManager.Input)
| FromHead (input : Input.t).

Definition inputUp (input : GameInput) : bool :=
  match input with
  | FromKeys i => truthy (InputManager.up i)
  | FromHead i => Input.up i
  end.

Definition inputDown (input : GameInput) : bool :=
  match input with
  | FromKeys i => truthy (InputManager.down i)
  | FromHead i => Input.down i
  end.

(** [inputManager.getInput() ||
     (window.simpleHeadTracker && window.simpleHeadTracker.getCurrentInput())
     || gazeTracker.getCurrentGaze()]; the basic gaze tracker's answer is
    taken as given. *)
Definition selectInput (keys : InputManager.Keys)
  (simpleHeadTracker : option Tracker) (currentGaze : option Input.t)
  : option GameInput :=
  match InputManager.getInput keys with
  | Some input => Some (FromKeys input)
  | None =>
      match match simpleHeadTracker with
            | Some t => getCurrentInput t
            | None => None
            end with
      | Some input => Some (FromHead input)
      | None => option_map FromHead currentGaze
      end
  end.

Module Rect.
Record t : Set := mk { x : float; y : float; width : float; height : float }.
End Rect.

(** [GazelleRunner.rectIntersect] *)
Definition rectIntersect (rect1 rect2 : Rect.t) : bool :=
  (Rect.x rect1 <? Rect.x rect2 + Rect.width rect2)
  && (Rect.x rect2 <? Rect.x rect1 + Rect.width rect1)
  && (Rect.y rect1 <? Rect.y rect2 + Rect.height rect2)
  && (Rect.y rect2 <? Rect.y rect1 + Rect.height rect1).

Module Obstacle.

Record t : Set := mk {
  type : string; x : float; y : float; width : float; height : float
}.

Definition getYPosition (type : string) : float :=
  if String.eqb type "rock" then 315
  else if String.eqb type "largeRock" then 280
  else if String.eqb type "bar" then 250
  else 315.

Definition getWidth (type : string) : float :=
  if String.eqb type "rock" then 25
  else if String.eqb type "largeRock" then 40
  else if String.eqb type "bar" then 80
  else 25.

Definition getHeight (type : string) : float :=
  if String.eqb type "rock" then 30
  else if String.eqb type "largeRock" then 65
  else if String.eqb type "bar" then 15
  else 30.

Definition constructor (type : string) : t :=
  {| type := type; x := 850; y := getYPosition type;
     width := getWidth type; height := getHeight type |}.

Definition update (o : t) (gameSpeed : float) : t :=
  {| type := type o; x := x o - gameSpeed; y := y o;
     width := width o; height := height o |}.

Definition getBoundingRect (o : t) : Rect.t :=
  if String.eqb (type o) "rock" then
    Rect.mk (x o + 3) (y o + 3) (width o - 6) (height o - 6)
  else if String.eqb (type o) "largeRock" then
    Rect.mk (x o + 5) (y o + 5) (width o - 10) (height o - 10)
  else if String.eqb (type o) "bar" then
    Rect.mk (x o + 5) (y o + 2) (width o - 10) (height o - 4)
  else
    Rect.mk (x o + 2) (y o + 2) (width o - 4) (height o - 4).

End Obstacle.

Module Gazelle.

Inductive State : Set := running | jumping | ducking.

Definition state_eqb (a b : State) : bool :=
  match a, b with
  | running, running | jumping, jumping | ducking, ducking => true
  | _, _ => false
  end.

Record t : Set := mk {
  x : float;
  y : float;
  velocityY : float;
  velocityX : float;
  onGround : bool;
  state : State;
  animationFrame : Z;
  animationTimer : Z;
  lane : Z;
  targetY : float
}.

(** Assigned in the constructor only. *)
Definition width : float := 48.
Definition height : float := 48.
Definition baseX : float := 100.
Definition gravity : float := 0.7.
Definition jumpPower : float := -16.
Definition bigJumpPower : float := -22.
Definition groundY : float := 300.
Definition duckY : float := 320.

Definition constructor : t :=
  {| x := 100; y := 300; velocityY := 0; velocityX := 0; onGround := true;
     state := running; animationFrame := 0; animationTimer := 0; lane := 1;
     targetY := 300 |}.

Definition jump (g : t) (isBigJump : bool) : t :=
  if onGround g then
    {| x := x g; y := y g;
       velocityY := if isBigJump then bigJumpPower else jumpPower;
       velocityX := 2;
       onGround := false;
       state := jumping;
       animationFrame := animationFrame g;
       animationTimer := animationTimer g;
       lane := lane g; targetY := targetY g |}
  else g.

(** [window.game?.obstacles || []] is the argument [obstacles]. *)
Definition checkForNearbyLargeRock (g : t) (obstacles : list Obstacle.t)
  : bool :=
  existsb (fun obstacle =>
             String.eqb (Obstacle.type obstacle) "largeRock"
             && (x g <? Obstacle.x obstacle)
             && (Obstacle.x obstacle <? x g + 200))
          obstacles.

Definition duck (g : t) : t :=
  if onGround g then
    {| x := x g; y := y g; velocityY := velocityY g; velocityX := velocityX g;
       onGround := onGround g;
       state := ducking;
       animationFrame := animationFrame g;
       animationTimer := animationTimer g;
       lane := lane g; targetY := duckY |}
  else g.

(** The two places that end a duck: [state = 'running'],
    [targetY = groundY]. *)
Definition standUp (g : t) : t :=
  {| x := x g; y := y g; velocityY := velocityY g; velocityX := velocityX g;
     onGround := onGround g;
     state := running;
     animationFrame := animationFrame g;
     animationTimer := animationTimer g;
     lane := lane g; targetY := groundY |}.

Definition handleInput (g : t) (input : option GameInput)
  (obstacles : list Obstacle.t) : t :=
  let g :=
    {| x := 100; y := y g; velocityY := velocityY g; velocityX := velocityX g;
       onGround := onGround g; state := state g;
       animationFrame := animationFrame g;
       animationTimer := animationTimer g;
       lane := 1; targetY := targetY g |} in
  match input with
  | None =>
      if state_eqb (state g) ducking && onGround g then standUp g else g
  | Some input =>
      let g :=
        if inputUp input && onGround g && negb (state_eqb (state g) ducking)
        then jump g (checkForNearbyLargeRock g obstacles)
        else g in
      if inputDown input then duck g
      else if state_eqb (state g) ducking && onGround g then standUp g
      else g
  end.

Definition updatePhysics (g : t) : t :=
  if negb (onGround g) then
    let velocityY1 := velocityY g + gravity in
    let y1 := y g + velocityY1 in
    let x1 := x g + velocityX g in
    let velocityX1 := velocityX g * 0.95 in
    if groundY <=? y1 then
      {| x := x1; y := groundY; velocityY := 0; velocityX := 0;
         onGround := true;
         state := if state_eqb (state g) jumping then running else state g;
         animationFrame := animationFrame g;
         animationTimer := animationTimer g;
         lane := lane g; targetY := targetY g |}
    else
      {| x := x1; y := y1; velocityY := velocityY1; velocityX := velocityX1;
         onGround := onGround g; state := state g;
         animationFrame := animationFrame g;
         animationTimer := animationTimer g;
         lane := lane g; targetY := targetY g |}
  else
    {| x := x g + (baseX - x g) * 0.2; y := groundY;
       velocityY := velocityY g; velocityX := velocityX g;
       onGround := onGround g; state := state g;
       animationFrame := animationFrame g;
       animationTimer := animationTimer g;
       lane := lane g; targetY := targetY g |}.

Definition updateAnimation (g : t) : t :=
  let timer := (animationTimer g + 1)%Z in
  {| x := x g; y := y g; velocityY := velocityY g; velocityX := velocityX g;
     onGround := onGround g; state := state g;
     animationFrame :=
       if (timer mod 8 =? 0)%Z then ((animationFrame g + 1) mod 6)%Z
       else animationFrame g;
     animationTimer := timer;
     lane := lane g; targetY := targetY g |}.

Definition update (g : t) (input : option GameInput)
  (obstacles : list Obstacle.t) : t :=
  updateAnimation (updatePhysics (handleInput g input obstacles)).

Definition getBoundingRect (g : t) : Rect.t :=
  let scale := 1.3 in
  if state_eqb (state g) ducking then
    let actualWidth := width * scale in
    let actualHeight := height * scale * 0.6 in
    Rect.mk (x g + 8) (y g + 20) (actualWidth - 16) (actualHeight - 8)
  else
    let actualWidth := width * scale in
    let actualHeight := height * scale in
    Rect.mk (x g + 8) (y g + 8) (actualWidth - 16) (actualHeight - 16).

End Gazelle.

(** The test of [GazelleRunner.checkCollisions]: some obstacle's rectangle
    meets the gazelle's. *)
Definition collides (g : Gazelle.t) (obstacles : list Obstacle.t) : bool :=
  existsb (fun obstacle =>
             rectIntersect (Gazelle.getBoundingRect g)
                           (Obstacle.getBoundingRect obstacle))
          obstacles.

(** The key codes that [InputManager.getInput] looks at. *)
Definition mappedCodes : list string :=
  ["Space"; "ArrowUp"; "KeyW"; "ArrowDown"; "KeyS";
   "ArrowLeft"; "KeyA"; "ArrowRight"; "KeyD"]%string.

(** One tick of the game as far as the gazelle goes: the input of the tick
    and the obstacles on the field. *)
Definition Tick : Set := (option GameInput * list Obstacle.t)%type.

Definition playTicks (g : Gazelle.t) (ticks : list Tick) : Gazelle.t :=
  fold_left (fun g tick => Gazelle.update g (fst tick) (snd tick)) ticks g.

(** What every tick keeps. *)
Definition gazelleInvariant (g : Gazelle.t) : Prop :=
  (Gazelle.onGround g = false <-> Gazelle.state g = Gazelle.jumping) /\
  (Gazelle.onGround g = true -> Gazelle.y g = Gazelle.groundY).

(** An obstacle of a given type after it has moved for some ticks. *)
Definition movedObstacle (type : string) (speeds : list float) : Obstacle.t :=
  fold_left Obstacle.update speeds (Obstacle.constructor type).

(** ** The basic gaze tracker's smoother

    [GazeTracker] keeps its own window of the strings ['up'], ['down'] and
    ['center'] and its own copy of the vote. *)
Module GazeTracker.

Inductive Gaze : Set := up | down | center.

Definition gaze_eqb (a b : Gaze) : bool :=
  match a, b with
  | up, up | down, down | center, center => true
  | _, _ => false
  end.

Definition Counts : Set := list (Gaze * Z).

(** [counts[gaze] = (counts[gaze] || 0) + weight] *)
Fixpoint addWeight (counts : Counts) (gaze : Gaze) (weight : Z) : Counts :=
  match counts with
  | [] => [(gaze, 0 + weight)%Z]
  | (k, v) :: rest =>
      if gaze_eqb k gaze then (k, (v + weight)%Z) :: rest
      else (k, v) :: addWeight rest gaze weight
  end.

Fixpoint countFrom (len index : nat) (gazes : list Gaze) (counts : Counts)
  : Counts :=
  match gazes with
  | [] => counts
  | gaze :: rest =>
      let weight := if (index =? len - 1)%nat then 2%Z else 1%Z in
      countFrom len (S index) rest (addWeight counts gaze weight)
  end.

Definition countGazes (gazeHistory : list Gaze) : Counts :=
  countFrom (length gazeHistory) 0 gazeHistory [].

Fixpoint insertSorted (e : Gaze * Z) (sorted : Counts) : Counts :=
  match sorted with
  | [] => [e]
  | a :: rest =>
      if (0 <? snd e - snd a)%Z then e :: a :: rest
      else a :: insertSorted e rest
  end.

Definition sortEntries (entries : Counts) : Counts :=
  fold_left (fun sorted e => insertSorted e sorted) entries [].

(** [counts[key]] for a key of [counts]. *)
Fixpoint lookup (counts : Counts) (gaze : Gaze) : Z :=
  match counts with
  | [] => 0%Z
  | (k, v) :: rest => if gaze_eqb k gaze then v else lookup rest gaze
  end.

Definition getSmoothedGaze (gazeHistory : list Gaze) : Gaze :=
  match gazeHistory with
  | [] => center
  | _ :: _ =>
      let counts := countGazes gazeHistory in
      match sortEntries counts with
      | topGaze :: _ =>
          if (2 <=? lookup counts (fst topGaze))%Z
             || match nth_error gazeHistory (length gazeHistory - 1) with
                | Some latest => gaze_eqb latest (fst topGaze)
                | None => false
                end
          then fst topGaze
          else center
      | [] => center   (* not reached: a non-empty history has an entry *)
      end
  end.

End GazeTracker.

(** The label of the head tracker that a gaze label stands for. *)
Definition asPose (gaze : GazeTracker.Gaze) : Pose :=
  match gaze with
  | GazeTracker.up => up
  | GazeTracker.down => down
  | GazeTracker.center => neutral
  end.

Definition asPoseEntry (e : GazeTracker.Gaze * Z) : Pose * Z :=
  (asPose (fst e), snd e).

(** ** Exact values

    A finite binary64 value is a rational number.  [exactValue] gives that
    number and [exactMean] the mean of the pitches of a sample window over
    the rationals, with no rounding: the [mean(window.pitch)] that the
    calibrator's floating-point [reduce] and division approximate. *)

Section ExactValues.
Local Open Scope Z_scope.

(** The rational number a finite binary64 value stands for: mantissa times
    2 to the exponent, with the sign. *)
Definition exactValue (x : float) : option Q :=
  match Prim2SF x with
  | S754_zero _ => Some 0%Q
  | S754_finite s m e =>
      Some match e with
           | Z0 => Qmake (cond_Zopp s (Zpos m)) 1
           | Zpos k => Qmake (cond_Zopp s (Zpos m) * 2 ^ Zpos k) 1
           | Zneg k => Qmake (cond_Zopp s (Zpos m)) (2 ^ k)
           end
  | _ => None
  end.

(** [x] is finite and stands for the rational [v]. *)
Definition hasValue (x : float) (v : Q) : Prop :=
  match exactValue x with
  | Some w => (w == v)%Q
  | None => False
  end.

(** The sum of the pitches over the rationals. *)
Fixpoint exactSum (samples : list PoseSample) : option Q :=
  match samples with
  | [] => Some 0%Q
  | sample :: rest =>
      match exactValue (pitch sample), exactSum rest with
      | Some v, Some r => Some (v + r)%Q
      | _, _ => None
      end
  end.

(** The mean of the pitches over the rationals. *)
Definition exactMean (samples : list PoseSample) : option Q :=
  match exactSum samples with
  | Some sum => Some (sum / inject_Z (Z.of_nat (length samples)))%Q
  | None => None
  end.

(** The pitches of [samples] average to [p]: all are finite and their mean
    over the rationals is the number [p] stands for. *)
Definition averagesTo (samples : list PoseSample) (p : float) : bool :=
  match exactMean samples, exactValue p with
  | Some m, Some v => Qeq_bool m v
  | _, _ => false
  end.

(** [z * 2^-q], rounded to binary64. *)
Definition dyadic (z q : Z) : spec_float :=
  binary_normalize prec emax z (- q) false.

(** [c * 2^-q] for an integer [c] of at most 53 digits, as the binary64
    value with a full mantissa. *)
Definition normalD (s : bool) (c : positive) (q : Z) : spec_float :=
  S754_finite s
    (Nat.iter (53 - Pos.to_nat (digits2_pos c)) xO c)
    (Zpos (digits2_pos c) - 53 - q).

(** The binary64 number [z * 2^-q]: the multiple [z] of the step [2^-q] of a
    fixed-point grid ([q = 0]: whole degrees, [q = 1]: half degrees). *)
Definition fixedPoint (q z : Z) : float := SF2Prim (dyadic z q).

(** The same number as a rational. *)
Definition gridValue (q z : Z) : Q := Qmake z (Z.to_pos (2 ^ q)).

Definition total (zs : list Z) : Z := fold_right Z.add 0 zs.

Definition absTotal (zs : list Z) : Z :=
  fold_right (fun z acc => Z.abs z + acc) 0 zs.

End ExactValues.

(** A tracker holding twelve samples on the half-degree grid, alternately
    -7.5 and -6.5. *)
Definition halfDegrees : Tracker :=
  set_samples (initDone constructor)
    (map sampleAt
       [-7.5; -6.5; -7.5; -6.5; -7.5; -6.5; -7.5; -6.5; -7.5; -6.5; -7.5; -6.5]).

(** * Properties *)

(** ** Order facts about binary64 comparison

    [<?] and [=?] are the IEEE comparisons of JavaScript's [<] and [===] on
    numbers: every comparison with NaN is false, and the two zeros are
    equal. *)
Section FloatOrder.

Ltac compare_cases :=
  repeat match goal with
    | |- context [(?a ?= ?b)%Z] => destruct (Z.compare_spec a b)
    | |- context [Pos.compare_cont Eq ?a ?b] =>
        change (Pos.compare_cont Eq a b) with (Pos.compare a b);
        destruct (Pos.compare_spec a b)
    end;
  simpl; intros; subst; try congruence; try lia.

Lemma SFcompare_Lt_trans (a b c : spec_float) :
  SFcompare a b = Some Lt -> SFcompare b c = Some Lt ->
  SFcompare a c = Some Lt.
Proof.
  destruct a as [[]|[]| |[] ma ea], b as [[]|[]| |[] mb eb],
           c as [[]|[]| |[] mc ec];
    simpl; try congruence; compare_cases.
Qed.

Lemma SFcompare_Eq_Lt (a b c : spec_float) :
  SFcompare a b = Some Eq -> SFcompare b c = Some Lt ->
  SFcompare a c = Some Lt.
Proof.
  destruct a as [[]|[]| |[] ma ea], b as [[]|[]| |[] mb eb],
           c as [[]|[]| |[] mc ec];
    simpl; try congruence; compare_cases.
Qed.

Lemma SFcompare_Lt_Eq (a b c : spec_float) :
  SFcompare a b = Some Lt -> SFcompare b c = Some Eq ->
  SFcompare a c = Some Lt.
Proof.
  destruct a as [[]|[]| |[] ma ea], b as [[]|[]| |[] mb eb],
           c as [[]|[]| |[] mc ec];
    simpl; try congruence; compare_cases.
Qed.

Lemma SFcompare_Lt_irrefl (a : spec_float) : SFcompare a a <> Some Lt.
Proof.
  destruct a as [[]|[]| |[] ma ea]; simpl; try congruence; compare_cases.
Qed.

Lemma ltb_SFcompare (x y : float) :
  (x <? y) = true <-> SFcompare (Prim2SF x) (Prim2SF y) = Some Lt.
Proof.
  rewrite FloatAxioms.ltb_spec. unfold SFltb.
  destruct (SFcompare _ _) as [[]|]; split; congruence.
Qed.

Lemma eqb_SFcompare (x y : float) :
  (x =? y) = true <-> SFcompare (Prim2SF x) (Prim2SF y) = Some Eq.
Proof.
  rewrite FloatAxioms.eqb_spec. unfold SFeqb.
  destruct (SFcompare _ _) as [[]|]; split; congruence.
Qed.

Lemma not_ltb (x y : float) : (x <? y) <> true -> (x <? y) = false.
Proof. destruct (x <? y); congruence. Qed.

(** [x < y < z] excludes [z < x]. *)
Lemma ltb_no_cycle (x y z : float) :
  (x <? y) = true -> (y <? z) = true -> (z <? x) = false.
Proof.
  intros Hxy Hyz. apply not_ltb. rewrite ltb_SFcompare in *. intros Hzx.
  apply (SFcompare_Lt_irrefl (Prim2SF x)).
  eauto using SFcompare_Lt_trans.
Qed.

Lemma eqb_not_ltb (x y : float) : (x =? y) = true -> (x <? y) = false.
Proof.
  intros H. apply not_ltb. rewrite ltb_SFcompare. rewrite eqb_SFcompare in H.
  congruence.
Qed.

Lemma eqb_not_gtb (x y : float) : (x =? y) = true -> (y <? x) = false.
Proof.
  intros H. apply not_ltb. rewrite ltb_SFcompare. rewrite eqb_SFcompare in H.
  intros Hyx. apply (SFcompare_Lt_irrefl (Prim2SF y)).
  eauto using SFcompare_Lt_Eq.
Qed.

(** [x == y < z] excludes [z < x]. *)
Lemma eqb_ltb_not_ltb (x y z : float) :
  (x =? y) = true -> (y <? z) = true -> (z <? x) = false.
Proof.
  intros Hxy Hyz. apply not_ltb.
  rewrite ltb_SFcompare in *. rewrite eqb_SFcompare in Hxy. intros Hzx.
  apply (SFcompare_Lt_irrefl (Prim2SF x)).
  eauto using SFcompare_Lt_trans, SFcompare_Eq_Lt.
Qed.

(** [y < z == x] excludes [x < y]. *)
Lemma ltb_eqb_not_ltb (x y z : float) :
  (x =? z) = true -> (y <? z) = true -> (x <? y) = false.
Proof.
  intros Hxz Hyz. apply not_ltb.
  rewrite ltb_SFcompare in *. rewrite eqb_SFcompare in Hxz. intros Hxy.
  apply (SFcompare_Lt_irrefl (Prim2SF z)).
  assert (SFcompare (Prim2SF x) (Prim2SF z) = Some Lt)
    by eauto using SFcompare_Lt_trans.
  congruence.
Qed.

End FloatOrder.

(** ** Command classifier *)

(** C1.  With a completed calibration whose thresholds satisfy
    [upThreshold < downThreshold], a sample classifies as [down] when its
    pitch is below [upThreshold], as [up] when its pitch is above
    [downThreshold], and as [neutral] otherwise; a pitch equal to either
    threshold is [neutral].  Tilting up (a lower pitch) thus gives the duck
    command [down]. *)
Theorem determineHeadPose_thresholds (t : Tracker) (headData : PoseSample) :
  isCalibrated t = true ->
  (upThreshold t <? downThreshold t) = true ->
  ((pitch headData <? upThreshold t) = true ->
   determineHeadPose t headData = down) /\
  ((downThreshold t <? pitch headData) = true ->
   determineHeadPose t headData = up) /\
  ((pitch headData <? upThreshold t) = false ->
   (downThreshold t <? pitch headData) = false ->
   determineHeadPose t headData = neutral) /\
  ((pitch headData =? upThreshold t) = true ->
   determineHeadPose t headData = neutral) /\
  ((pitch headData =? downThreshold t) = true ->
   determineHeadPose t headData = neutral).
Proof.
  intros Hcal Hord. unfold determineHeadPose. rewrite Hcal. simpl.
  repeat split.
  - intros ->. reflexivity.
  - intros Habove.
    rewrite (ltb_no_cycle _ _ _ Hord Habove), Habove. reflexivity.
  - intros -> ->. reflexivity.
  - intros Heq.
    rewrite (eqb_not_ltb _ _ Heq), (eqb_ltb_not_ltb _ _ _ Heq Hord).
    reflexivity.
  - intros Heq.
    rewrite (ltb_eqb_not_ltb _ _ _ Heq Hord), (eqb_not_gtb _ _ Heq).
    reflexivity.
Qed.

(** ** Calibrator *)

Lemma finishCalibration_enough (t : Tracker) :
  (10 < length (calibrationSamples t))%nat ->
  finishCalibration t
  = {| isInitialized := isInitialized t;
       currentHeadPose := currentHeadPose t;
       poseHistory := poseHistory t;
       isCalibrated := true;
       neutralPosition := Some (avgPitch (calibrationSamples t));
       calibrationSamples := calibrationSamples t;
       upThreshold := avgPitch (calibrationSamples t) - 5;
       downThreshold := avgPitch (calibrationSamples t) + 5;
       calibrateButton := mkButton TxtCalibrated "#00AA00" |}.
Proof.
  intros H. unfold finishCalibration.
  destruct (Nat.ltb_spec 10 (length (calibrationSamples t))); [ | lia ].
  reflexivity.
Qed.

Lemma finishCalibration_label (t : Tracker) :
  (10 < length (calibrationSamples t))%nat ->
  textContent (calibrateButton (finishCalibration t)) = TxtCalibrated.
Proof.
  intros H. unfold finishCalibration.
  destruct (Nat.ltb_spec 10 (length (calibrationSamples t))); [ | lia ].
  reflexivity.
Qed.

(** *** Binary64 arithmetic that does not round

    Sums, differences and quotients of multiples of [2^-q] that fit in the 53
    bits of a mantissa are computed exactly. *)

Section ExactArithmetic.
Local Open Scope Z_scope.

Lemma iter_pos_nat {A} (f : A -> A) (p : positive) (x : A) :
  SpecFloat.iter_pos f p x = Nat.iter (Pos.to_nat p) f x.
Proof.
  revert x. induction p as [p IH|p IH|]; intros x; cbn [SpecFloat.iter_pos].
  - rewrite !IH, Pos2Nat.inj_xI. cbn [Nat.mul]. rewrite Nat.add_0_r.
    rewrite Nat.iter_succ_r, Nat.iter_add. reflexivity.
  - rewrite !IH, Pos2Nat.inj_xO. cbn [Nat.mul]. rewrite Nat.add_0_r.
    rewrite Nat.iter_add. reflexivity.
  - reflexivity.
Qed.

Lemma Pos_iter_nat {A} (f : A -> A) (p : positive) (x : A) :
  Pos.iter f x p = Nat.iter (Pos.to_nat p) f x.
Proof.
  rewrite Pos2Nat.inj_iter. reflexivity.
Qed.

Lemma digits_shift (k : nat) (c : positive) :
  Zpos (digits2_pos (Nat.iter k xO c)) = Zpos (digits2_pos c) + Z.of_nat k.
Proof.
  induction k as [|k IH].
  - change (Nat.iter 0 xO c) with c. lia.
  - change (Nat.iter (S k) xO c) with (xO (Nat.iter k xO c)).
    cbn [digits2_pos]. rewrite Pos2Z.inj_succ, Nat2Z.inj_succ. lia.
Qed.

Lemma Zpos_shift (k : nat) (c : positive) :
  Zpos (Nat.iter k xO c) = Zpos c * 2 ^ Z.of_nat k.
Proof.
  induction k as [|k IH].
  - change (Nat.iter 0 xO c) with c. change (Z.of_nat 0) with 0.
    rewrite Z.pow_0_r. lia.
  - change (Nat.iter (S k) xO c) with (xO (Nat.iter k xO c)).
    rewrite Nat2Z.inj_succ, Z.pow_succ_r by lia.
    change (Zpos (Nat.iter k xO c)~0) with (2 * Zpos (Nat.iter k xO c)).
    rewrite IH. lia.
Qed.

Lemma digits_bounds (c : positive) :
  2 ^ (Zpos (digits2_pos c) - 1) <= Zpos c < 2 ^ Zpos (digits2_pos c).
Proof.
  induction c as [c IH|c IH|]; cbn [digits2_pos].
  - rewrite Pos2Z.inj_succ, Pos2Z.inj_xI.
    replace (Z.succ (Zpos (digits2_pos c)) - 1) with (Z.succ (Zpos (digits2_pos c) - 1)) by lia.
    rewrite !Z.pow_succ_r by lia.
    destruct IH as [IH1 IH2]. revert IH1 IH2.
    generalize (2 ^ (Zpos (digits2_pos c) - 1)) (2 ^ Zpos (digits2_pos c)). lia.
  - rewrite Pos2Z.inj_succ. change (Zpos c~0) with (2 * Zpos c).
    replace (Z.succ (Zpos (digits2_pos c)) - 1) with (Z.succ (Zpos (digits2_pos c) - 1)) by lia.
    rewrite !Z.pow_succ_r by lia.
    destruct IH as [IH1 IH2]. revert IH1 IH2.
    generalize (2 ^ (Zpos (digits2_pos c) - 1)) (2 ^ Zpos (digits2_pos c)). lia.
  - cbn. lia.
Qed.

Lemma shr_exact (k : nat) (M : positive) :
  Nat.iter k shr_1 (Build_shr_record (Zpos (Nat.iter k xO M)) false false)
  = Build_shr_record (Zpos M) false false.
Proof.
  induction k as [|k IH].
  - reflexivity.
  - rewrite Nat.iter_succ_r.
    change (Nat.iter (S k) xO M) with (xO (Nat.iter k xO M)).
    cbn [shr_1 orb]. exact IH.
Qed.

Lemma shr_by (r : shr_record) (e : Z) (k : nat) :
  shr r e (Z.of_nat k) = (Nat.iter k shr_1 r, e + Z.of_nat k).
Proof.
  destruct k as [|k].
  - change (Z.of_nat 0) with 0. cbn [shr Nat.iter nat_rect]. f_equal. lia.
  - change (Z.of_nat (S k)) with (Zpos (Pos.of_succ_nat k)) at 1.
    cbn [shr]. rewrite iter_pos_nat, SuccNat2Pos.id_succ.
    rewrite Zpos_P_of_succ_nat, <- Nat2Z.inj_succ. reflexivity.
Qed.

Lemma fexp_normal (e : Z) :
  -1021 <= e -> fexp prec emax e = e - 53.
Proof. intros H. unfold fexp, emin, prec, emax. lia. Qed.

(** Rounding a mantissa of 53 digits followed by [k] zero bits is exact. *)
Lemma binary_round_aux_exact (s : bool) (M : positive) (E : Z) (k : nat) :
  Zpos (digits2_pos M) = 53 -> -1074 <= E <= 971 ->
  binary_round_aux prec emax s (Zpos (Nat.iter k xO M)) (E - Z.of_nat k)
    loc_Exact
  = S754_finite s M E.
Proof.
  intros HM HE. unfold binary_round_aux, shr_fexp, Zdigits2.
  rewrite digits_shift, HM, fexp_normal by lia.
  replace (53 + Z.of_nat k + (E - Z.of_nat k) - 53 - (E - Z.of_nat k))
    with (Z.of_nat k) by lia.
  cbn [shr_record_of_loc]. rewrite shr_by, shr_exact.
  cbn [shr_m loc_of_shr_record round_nearest_even].
  rewrite HM, fexp_normal by lia.
  replace (53 + (E - Z.of_nat k + Z.of_nat k) - 53
           - (E - Z.of_nat k + Z.of_nat k)) with (Z.of_nat 0) by lia.
  rewrite shr_by. cbn [Nat.iter nat_rect shr_m].
  replace (E - Z.of_nat k + Z.of_nat k + Z.of_nat 0) with E by lia.
  unfold prec, emax.
  destruct (Z.leb_spec E (1024 - 53)); [ reflexivity | lia ].
Qed.

Lemma binary_round_dyadic (s : bool) (c : positive) (q : Z) (k : nat) :
  Zpos c < 2 ^ 53 -> 0 <= q <= 960 ->
  binary_round prec emax s (Nat.iter k xO c) (- q - Z.of_nat k)
  = normalD s c q.
Proof.
  intros Hc Hq.
  assert (Hd : Zpos (digits2_pos c) <= 53).
  { destruct (digits_bounds c) as [Hlo _].
    destruct (Z.le_gt_cases (Zpos (digits2_pos c)) 53) as [|Hgt]; [ assumption | ].
    assert (2 ^ 53 <= 2 ^ (Zpos (digits2_pos c) - 1))
      by (apply Z.pow_le_mono_r; lia).
    lia. }
  set (d := digits2_pos c) in *.
  assert (HM : Zpos (digits2_pos (Nat.iter (53 - Pos.to_nat d) xO c)) = 53).
  { rewrite digits_shift. fold d. lia. }
  unfold binary_round, normalD. fold d.
  rewrite digits_shift. fold d.
  rewrite fexp_normal by lia.
  unfold shl_align.
  destruct (Zpos d + Z.of_nat k + (- q - Z.of_nat k) - 53 - (- q - Z.of_nat k))
    as [|g|g] eqn:Hg.
  - replace (Nat.iter k xO c)
      with (Nat.iter (k - (53 - Pos.to_nat d)) xO
              (Nat.iter (53 - Pos.to_nat d) xO c))
      by (rewrite <- Nat.iter_add; f_equal; lia).
    replace (- q - Z.of_nat k)
      with (Zpos d - 53 - q - Z.of_nat (k - (53 - Pos.to_nat d))) by lia.
    apply binary_round_aux_exact; [ exact HM | lia ].
  - replace (Nat.iter k xO c)
      with (Nat.iter (k - (53 - Pos.to_nat d)) xO
              (Nat.iter (53 - Pos.to_nat d) xO c))
      by (rewrite <- Nat.iter_add; f_equal; lia).
    replace (- q - Z.of_nat k)
      with (Zpos d - 53 - q - Z.of_nat (k - (53 - Pos.to_nat d))) by lia.
    apply binary_round_aux_exact; [ exact HM | lia ].
  - rewrite Pos_iter_nat, <- Nat.iter_add.
    replace (Pos.to_nat g + k)%nat with (53 - Pos.to_nat d)%nat by lia.
    replace (Zpos d + Z.of_nat k + (- q - Z.of_nat k) - 53)
      with (Zpos d - 53 - q - Z.of_nat 0) by lia.
    apply (binary_round_aux_exact s _ _ 0); [ exact HM | lia ].
Qed.

Lemma binary_normalize_dyadic (w q : Z) (k : nat) :
  Z.abs w < 2 ^ 53 -> 0 <= q <= 960 ->
  binary_normalize prec emax (w * 2 ^ Z.of_nat k) (- q - Z.of_nat k) false
  = dyadic w q.
Proof.
  intros Hw Hq. unfold dyadic.
  replace (- q) with (- q - Z.of_nat 0) at 2 by lia.
  destruct w as [|c|c].
  - reflexivity.
  - change (Zpos c * 2 ^ Z.of_nat k) with (Zpos c * 2 ^ Z.of_nat k).
    rewrite <- Zpos_shift. cbn [binary_normalize].
    rewrite binary_round_dyadic by lia.
    symmetry. apply (binary_round_dyadic false c q 0); lia.
  - replace (Zneg c * 2 ^ Z.of_nat k)
      with (Z.opp (Zpos c * 2 ^ Z.of_nat k)) by lia.
    rewrite <- Zpos_shift. cbn [Z.opp binary_normalize].
    rewrite binary_round_dyadic by lia.
    symmetry. apply (binary_round_dyadic true c q 0); lia.
Qed.

Lemma dyadic_normal (s : bool) (c : positive) (q : Z) :
  Zpos c < 2 ^ 53 -> 0 <= q <= 960 ->
  dyadic (cond_Zopp s (Zpos c)) q = normalD s c q.
Proof.
  intros Hc Hq. unfold dyadic.
  replace (- q) with (- q - Z.of_nat 0) by lia.
  destruct s; cbn [cond_Zopp Z.opp binary_normalize];
    apply (binary_round_dyadic _ c q 0); lia.
Qed.

Lemma shl_align_fst (m : positive) (e ez : Z) :
  ez <= e ->
  fst (shl_align m e ez) = Nat.iter (Z.to_nat (e - ez)) xO m.
Proof.
  intros H. unfold shl_align. destruct (ez - e) as [|g|g] eqn:Hg.
  - replace (e - ez) with 0 by lia. reflexivity.
  - lia.
  - cbn [fst]. rewrite Pos_iter_nat. f_equal. lia.
Qed.

Lemma digits_le_53 (c : positive) :
  Zpos c < 2 ^ 53 -> Zpos (digits2_pos c) <= 53.
Proof.
  intros Hc. destruct (digits_bounds c) as [Hlo _].
  destruct (Z.le_gt_cases (Zpos (digits2_pos c)) 53) as [|Hgt]; [ assumption | ].
  assert (2 ^ 53 <= 2 ^ (Zpos (digits2_pos c) - 1))
    by (apply Z.pow_le_mono_r; lia).
  lia.
Qed.

Lemma SFadd_normal (sa sb : bool) (a b : positive) (q : Z) :
  Zpos a < 2 ^ 53 -> Zpos b < 2 ^ 53 -> 0 <= q <= 960 ->
  Z.abs (cond_Zopp sa (Zpos a) + cond_Zopp sb (Zpos b)) < 2 ^ 53 ->
  SFadd prec emax (normalD sa a q) (normalD sb b q)
  = dyadic (cond_Zopp sa (Zpos a) + cond_Zopp sb (Zpos b)) q.
Proof.
  intros Ha Hb Hq Hab.
  pose proof (digits_le_53 a Ha) as Hda.
  pose proof (digits_le_53 b Hb) as Hdb.
  unfold normalD. cbn [SFadd].
  set (da := digits2_pos a) in *. set (db := digits2_pos b) in *.
  set (K := (53 - Nat.min (Pos.to_nat da) (Pos.to_nat db))%nat).
  assert (Hez : Z.min (Zpos da - 53 - q) (Zpos db - 53 - q)
                = - q - Z.of_nat K) by lia.
  rewrite Hez, !shl_align_fst, <- !Nat.iter_add by lia.
  replace (Z.to_nat (Zpos da - 53 - q - (- q - Z.of_nat K))
           + (53 - Pos.to_nat da))%nat with K by lia.
  replace (Z.to_nat (Zpos db - 53 - q - (- q - Z.of_nat K))
           + (53 - Pos.to_nat db))%nat with K by lia.
  rewrite !Zpos_shift.
  replace (cond_Zopp sa (Zpos a * 2 ^ Z.of_nat K)
           + cond_Zopp sb (Zpos b * 2 ^ Z.of_nat K))
    with ((cond_Zopp sa (Zpos a) + cond_Zopp sb (Zpos b)) * 2 ^ Z.of_nat K)
    by (destruct sa, sb; cbn [cond_Zopp]; lia).
  apply binary_normalize_dyadic; assumption.
Qed.

Lemma cond_Zopp_cases (z : Z) :
  z = 0 \/ exists s c, z = cond_Zopp s (Zpos c).
Proof.
  destruct z as [|c|c].
  - left; reflexivity.
  - right; exists false, c; reflexivity.
  - right; exists true, c; reflexivity.
Qed.

Lemma abs_cond_Zopp (s : bool) (c : positive) :
  Z.abs (cond_Zopp s (Zpos c)) = Zpos c.
Proof. destruct s; reflexivity. Qed.

(** Adding two multiples of [2^-q] whose sum fits in 53 bits is exact. *)
Lemma SFadd_dyadic (a b q : Z) :
  Z.abs a < 2 ^ 53 -> Z.abs b < 2 ^ 53 -> Z.abs (a + b) < 2 ^ 53 ->
  0 <= q <= 960 ->
  SFadd prec emax (dyadic a q) (dyadic b q) = dyadic (a + b) q.
Proof.
  intros Ha Hb Hab Hq.
  destruct (cond_Zopp_cases a) as [->|(sa & ca & ->)];
    destruct (cond_Zopp_cases b) as [->|(sb & cb & ->)].
  - reflexivity.
  - rewrite Z.add_0_l, dyadic_normal by (rewrite abs_cond_Zopp in Hb; lia).
    reflexivity.
  - rewrite Z.add_0_r, dyadic_normal by (rewrite abs_cond_Zopp in Ha; lia).
    reflexivity.
  - rewrite abs_cond_Zopp in Ha, Hb.
    rewrite (dyadic_normal sa), (dyadic_normal sb) by lia.
    apply SFadd_normal; assumption.
Qed.

Lemma div_eucl_exact (b c : Z) :
  0 < b -> Z.div_eucl (b * c) b = (c, 0).
Proof.
  intros Hb. destruct (Z.div_eucl (b * c) b) as [q r] eqn:E.
  assert (Hq : q = (b * c) / b) by (unfold Z.div; rewrite E; reflexivity).
  assert (Hr : r = (b * c) mod b) by (unfold Z.modulo; rewrite E; reflexivity).
  rewrite Z.mul_comm, Z.div_mul in Hq by lia.
  rewrite Z.mul_comm, Z.mod_mul in Hr by lia.
  congruence.
Qed.

Lemma digits_mul (n p : positive) :
  Zpos (digits2_pos (n * p)) <= Zpos (digits2_pos n) + Zpos (digits2_pos p).
Proof.
  destruct (digits_bounds (n * p)) as [Hlo _].
  destruct (digits_bounds n) as [_ Hn]. destruct (digits_bounds p) as [_ Hp].
  assert (H : 2 ^ (Zpos (digits2_pos (n * p)) - 1)
              < 2 ^ (Zpos (digits2_pos n) + Zpos (digits2_pos p))).
  { rewrite Z.pow_add_r by lia. rewrite Pos2Z.inj_mul in Hlo.
    eapply Z.le_lt_trans; [ exact Hlo | ].
    apply Z.mul_lt_mono_nonneg; lia. }
  apply Z.pow_lt_mono_r_iff in H; lia.
Qed.

Lemma new_location_exact (m : Z) : new_location m 0 = loc_Exact.
Proof. unfold new_location. destruct (Z.even m); reflexivity. Qed.

Lemma SFdiv_normal (s : bool) (n p : positive) (q : Z) :
  Zpos (n * p) < 2 ^ 53 -> 0 <= q <= 960 ->
  SFdiv prec emax (normalD s (n * p) q) (normalD false n 0) = normalD s p q.
Proof.
  intros Hnp Hq.
  assert (Hn : Zpos n < 2 ^ 53) by (rewrite Pos2Z.inj_mul in Hnp; nia).
  assert (Hp : Zpos p < 2 ^ 53) by (rewrite Pos2Z.inj_mul in Hnp; nia).
  pose proof (digits_le_53 _ Hnp) as HdS.
  pose proof (digits_le_53 _ Hn) as Hdn.
  pose proof (digits_le_53 _ Hp) as Hdp.
  pose proof (digits_mul n p) as Hmul.
  unfold normalD. cbn [SFdiv]. unfold SFdiv_core_binary, Zdigits2.
  rewrite !digits_shift.
  set (dS := digits2_pos (n * p)) in *.
  set (dn := digits2_pos n) in *. set (dp := digits2_pos p) in *.
  rewrite fexp_normal by lia.
  match goal with
  | |- context [Z.min ?a ?b] => replace (Z.min a b) with (Zpos dS - Zpos dn - q - 53) by lia
  end.
  replace (Zpos dS - 53 - q - (Zpos dn - 53 - 0) - (Zpos dS - Zpos dn - q - 53))
    with 53 by lia.
  cbv iota. rewrite Z.shiftl_mul_pow2 by lia.
  rewrite !Zpos_shift.
  set (j := (53 + Pos.to_nat dn - Pos.to_nat dS)%nat).
  replace (Zpos (n * p) * 2 ^ Z.of_nat (53 - Pos.to_nat dS) * 2 ^ 53)
    with (Zpos n * 2 ^ Z.of_nat (53 - Pos.to_nat dn)
          * (Zpos p * 2 ^ Z.of_nat j)).
  2:{ rewrite Pos2Z.inj_mul.
      replace (2 ^ 53) with (2 ^ Z.of_nat 53) by reflexivity.
      transitivity (Zpos n * Zpos p
                    * (2 ^ Z.of_nat (53 - Pos.to_nat dn) * 2 ^ Z.of_nat j));
        [ ring | ].
      transitivity (Zpos n * Zpos p
                    * (2 ^ Z.of_nat (53 - Pos.to_nat dS) * 2 ^ Z.of_nat 53));
        [ | ring ].
      rewrite <- !Z.pow_add_r by lia. do 2 f_equal. lia. }
  rewrite div_eucl_exact by lia.
  rewrite new_location_exact, xorb_false_r, <- Zpos_shift.
  set (k := (Pos.to_nat dn + Pos.to_nat dp - Pos.to_nat dS)%nat).
  replace j with (k + (53 - Pos.to_nat dp))%nat by lia.
  rewrite Nat.iter_add.
  replace (Zpos dS - Zpos dn - q - 53)
    with (Zpos dp - 53 - q - Z.of_nat k) by lia.
  apply binary_round_aux_exact; [ rewrite digits_shift; fold dp; lia | lia ].
Qed.

(** Dividing a multiple of [2^-q] by a whole number that divides it is exact. *)
Lemma SFdiv_dyadic (n p q : Z) :
  0 < n < 2 ^ 53 -> Z.abs (n * p) < 2 ^ 53 -> 0 <= q <= 960 ->
  SFdiv prec emax (dyadic (n * p) q) (dyadic n 0) = dyadic p q.
Proof.
  intros Hn Hnp Hq.
  destruct n as [|n|n]; try lia.
  change (dyadic (Zpos n) 0) with (dyadic (cond_Zopp false (Zpos n)) 0).
  destruct (cond_Zopp_cases p) as [->|(s & c & ->)].
  - rewrite Z.mul_0_r.
    rewrite (dyadic_normal false n 0) by lia. reflexivity.
  - replace (Zpos n * cond_Zopp s (Zpos c))
      with (cond_Zopp s (Zpos (n * c))) in *
      by (destruct s; cbn [cond_Zopp]; lia).
    rewrite abs_cond_Zopp in Hnp.
    assert (Zpos n < 2 ^ 53 /\ Zpos c < 2 ^ 53)
      by (rewrite Pos2Z.inj_mul in Hnp; nia).
    rewrite (dyadic_normal s (n * c)), (dyadic_normal s c) by lia.
    rewrite (dyadic_normal false n 0) by lia.
    apply SFdiv_normal; assumption.
Qed.

Lemma valid_normalD (s : bool) (c : positive) (q : Z) :
  Zpos c < 2 ^ 53 -> 0 <= q <= 960 ->
  valid_binary (normalD s c q) = true.
Proof.
  intros Hc Hq. pose proof (digits_le_53 c Hc) as Hd.
  unfold normalD, valid_binary, SpecFloat.valid_binary, bounded,
    canonical_mantissa.
  rewrite digits_shift, fexp_normal by lia.
  apply andb_true_intro; split.
  - apply Z.eqb_eq. lia.
  - apply Z.leb_le. unfold emax, prec. lia.
Qed.

Lemma Prim2SF_fixed (q z : Z) :
  Z.abs z < 2 ^ 53 -> 0 <= q <= 960 ->
  Prim2SF (fixedPoint q z) = dyadic z q.
Proof.
  intros Hz Hq. unfold fixedPoint. apply FloatAxioms.Prim2SF_SF2Prim.
  destruct (cond_Zopp_cases z) as [->|(s & c & ->)].
  - reflexivity.
  - rewrite abs_cond_Zopp in Hz. rewrite dyadic_normal by lia.
    apply valid_normalD; lia.
Qed.

Lemma hasValue_dyadic (x : float) (q z : Z) :
  Z.abs z < 2 ^ 53 -> 0 <= q <= 960 ->
  Prim2SF x = dyadic z q ->
  hasValue x (gridValue q z).
Proof.
  intros Hz Hq Hx. unfold hasValue, exactValue. rewrite Hx.
  assert (HD : Zpos (Z.to_pos (2 ^ q)) = 2 ^ q)
    by (apply Z2Pos.id, Z.pow_pos_nonneg; lia).
  destruct (cond_Zopp_cases z) as [->|(s & c & ->)].
  - reflexivity.
  - rewrite abs_cond_Zopp in Hz. pose proof (digits_le_53 c Hz) as Hd.
    rewrite dyadic_normal by lia. unfold normalD, gridValue.
    set (d := digits2_pos c) in *.
    assert (HM : cond_Zopp s (Zpos (Nat.iter (53 - Pos.to_nat d) xO c))
                 = cond_Zopp s (Zpos c) * 2 ^ (53 - Zpos d)).
    { rewrite Zpos_shift.
      replace (Z.of_nat (53 - Pos.to_nat d)) with (53 - Zpos d) by lia.
      destruct s; cbn [cond_Zopp]; lia. }
    destruct (Zpos d - 53 - q) as [|k|k] eqn:He.
    + unfold Qeq. cbn [Qnum Qden]. rewrite HM, HD.
      replace (53 - Zpos d) with 0 by lia. replace q with 0 by lia.
      change (2 ^ 0) with 1. ring.
    + lia.
    + unfold Qeq. cbn [Qnum Qden]. rewrite HM, HD, Pos2Z.inj_pow.
      replace (Zpos k) with (53 - Zpos d + q) by lia.
      rewrite Z.pow_add_r by lia. ring.
Qed.

Lemma hasValue_fixed (q z : Z) :
  Z.abs z < 2 ^ 53 -> 0 <= q <= 960 ->
  hasValue (fixedPoint q z) (gridValue q z).
Proof.
  intros Hz Hq. apply hasValue_dyadic; try assumption.
  apply Prim2SF_fixed; assumption.
Qed.

Lemma absTotal_nonneg (zs : list Z) : 0 <= absTotal zs.
Proof.
  unfold absTotal. induction zs as [|z zs IH]; cbn [fold_right]; lia.
Qed.

Lemma total_le_absTotal (zs : list Z) : Z.abs (total zs) <= absTotal zs.
Proof.
  unfold total, absTotal.
  induction zs as [|z zs IH]; cbn [fold_right] in *; lia.
Qed.

Lemma absTotal_bound (B : Z) (zs : list Z) :
  Forall (fun z => Z.abs z <= B) zs ->
  absTotal zs <= Z.of_nat (length zs) * B.
Proof.
  unfold absTotal. induction 1 as [|z zs Hz _ IH].
  - cbn. lia.
  - cbn [fold_right length] in *. rewrite Nat2Z.inj_succ. lia.
Qed.

Lemma gridValue_add (q a b : Z) :
  (gridValue q a + gridValue q b == gridValue q (a + b))%Q.
Proof.
  unfold gridValue, Qeq, Qplus. cbn [Qnum Qden].
  rewrite Pos2Z.inj_mul. ring.
Qed.

Lemma exactSum_fixed (q : Z) (samples : list PoseSample) (zs : list Z) :
  0 <= q <= 960 ->
  Forall (fun z => Z.abs z < 2 ^ 53) zs ->
  map pitch samples = map (fixedPoint q) zs ->
  exists v, exactSum samples = Some v /\ (v == gridValue q (total zs))%Q.
Proof.
  intros Hq Hzs. revert samples.
  induction Hzs as [|z zs Hz _ IH]; intros [|s samples] Hmap;
    try discriminate Hmap.
  - exists 0%Q. split; reflexivity.
  - cbn [map] in Hmap. injection Hmap as Hs Hrest.
    destruct (IH samples Hrest) as (r & Hr & Hreq).
    pose proof (hasValue_fixed q z Hz Hq) as Hv. unfold hasValue in Hv.
    cbn [exactSum]. rewrite Hs, Hr.
    destruct (exactValue (fixedPoint q z)) as [v|]; [ | contradiction ].
    exists (v + r)%Q. split; [ reflexivity | ].
    rewrite Hv, Hreq. apply gridValue_add.
Qed.

Lemma Prim2SF_sum (q : Z) (samples : list PoseSample) (zs : list Z)
  (acc : float) (zacc : Z) :
  0 <= q <= 960 ->
  map pitch samples = map (fixedPoint q) zs ->
  Z.abs zacc + absTotal zs < 2 ^ 53 ->
  Prim2SF acc = dyadic zacc q ->
  Prim2SF (fold_left (fun sum sample => sum + pitch sample)%float samples acc)
  = dyadic (zacc + total zs) q.
Proof.
  intros Hq. revert zs acc zacc.
  induction samples as [|s samples IH]; intros [|z zs] acc zacc Hmap Hb Hacc;
    try discriminate Hmap.
  - change (total []) with 0. cbn [fold_left]. rewrite Z.add_0_r. exact Hacc.
  - cbn [map] in Hmap. injection Hmap as Hs Hrest.
    change (absTotal (z :: zs)) with (Z.abs z + absTotal zs) in Hb.
    change (total (z :: zs)) with (z + total zs).
    pose proof (absTotal_nonneg zs) as Hnn.
    cbn [fold_left].
    rewrite Z.add_assoc. apply IH; [ exact Hrest | lia | ].
    rewrite FloatAxioms.add_spec, Hacc, Hs, Prim2SF_fixed by lia.
    apply SFadd_dyadic; lia.
Qed.

Lemma Prim2SF_float_of_nat (n : nat) :
  Z.of_nat n < 2 ^ 53 ->
  Prim2SF (float_of_nat n) = dyadic (Z.of_nat n) 0.
Proof.
  intros Hn. unfold float_of_nat. rewrite FloatAxioms.of_uint63_spec.
  change Uint63Axioms.to_Z with Uint63.to_Z.
  rewrite Uint63.of_Z_spec, Z.mod_small; [ reflexivity | ].
  split; [ lia | ].
  apply Z.lt_trans with (1 := Hn). reflexivity.
Qed.

Lemma Prim2SF_avgPitch (q : Z) (samples : list PoseSample) (zs : list Z)
  (zp : Z) :
  0 <= q <= 960 ->
  samples <> [] ->
  Z.of_nat (length samples) < 2 ^ 53 ->
  map pitch samples = map (fixedPoint q) zs ->
  absTotal zs < 2 ^ 53 ->
  total zs = Z.of_nat (length samples) * zp ->
  Prim2SF (avgPitch samples) = dyadic zp q.
Proof.
  intros Hq Hne Hn Hmap Hb Hmean. unfold avgPitch.
  rewrite FloatAxioms.div_spec, Prim2SF_float_of_nat by exact Hn.
  rewrite (Prim2SF_sum q samples zs 0%float 0); try assumption.
  2:{ reflexivity. }
  rewrite Z.add_0_l, Hmean.
  pose proof (total_le_absTotal zs) as Habs. rewrite Hmean in Habs.
  apply SFdiv_dyadic; [ | lia | exact Hq ].
  destruct samples; [ contradiction | ]. cbn [length] in *. lia.
Qed.

Lemma gridValue_mean (q : Z) (n : nat) (v : Q) (sum zp : Z) :
  0 <= q -> (0 < n)%nat ->
  (v == gridValue q sum)%Q ->
  (v / inject_Z (Z.of_nat n) == gridValue q zp)%Q ->
  sum = Z.of_nat n * zp.
Proof.
  intros Hq Hn Hv Hmean.
  assert (Hnz : ~ (inject_Z (Z.of_nat n) == 0)%Q).
  { unfold Qeq, inject_Z. cbn [Qnum Qden]. lia. }
  assert (H : (gridValue q sum == inject_Z (Z.of_nat n) * gridValue q zp)%Q).
  { rewrite <- Hv, <- Hmean. symmetry. apply Qmult_div_r. exact Hnz. }
  unfold gridValue, Qeq, Qmult, inject_Z in H. cbn [Qnum Qden] in H.
  rewrite Pos2Z.inj_mul in H.
  assert (HD : 0 < Zpos (Z.to_pos (2 ^ q))) by lia.
  revert H HD. generalize (Zpos (Z.to_pos (2 ^ q))). intros D H HD.
  apply Z.mul_reg_r with D; lia.
Qed.

Lemma averagesTo_grid (q : Z) (samples : list PoseSample) (zs : list Z)
  (zp : Z) :
  0 <= q <= 960 -> samples <> [] ->
  Forall (fun z => Z.abs z < 2 ^ 53) (zp :: zs) ->
  map pitch samples = map (fixedPoint q) zs ->
  averagesTo samples (fixedPoint q zp) = true ->
  total zs = Z.of_nat (length samples) * zp /\
  exists m, exactMean samples = Some m /\ (m == gridValue q zp)%Q.
Proof.
  intros Hq Hne Hall Hmap Havg.
  pose proof (Forall_inv Hall) as Hzp. cbv beta in Hzp.
  pose proof (Forall_inv_tail Hall) as Hzs.
  destruct (exactSum_fixed q samples zs Hq Hzs Hmap) as (v & Hv & Hveq).
  pose proof (hasValue_fixed q zp Hzp Hq) as Hp. unfold hasValue in Hp.
  unfold averagesTo, exactMean in *. rewrite Hv in *.
  destruct (exactValue (fixedPoint q zp)) as [vp|]; [ | contradiction ].
  apply Qeq_bool_iff in Havg. rewrite Hp in Havg.
  split; [ | eexists; split; [ reflexivity | exact Havg ] ].
  apply (gridValue_mean q (length samples) v); try assumption; try lia.
  destruct samples; [ contradiction | cbn [length]; lia ].
Qed.

Lemma SFsub_SFadd (x : spec_float) (s : bool) (m : positive) (e : Z) :
  x = S754_zero false \/ (exists sx mx ex, x = S754_finite sx mx ex) ->
  SFsub prec emax x (S754_finite s m e)
  = SFadd prec emax x (S754_finite (negb s) m e).
Proof.
  intros [->|(sx & mx & ex & ->)].
  - reflexivity.
  - cbn [SFsub SFadd]. f_equal. destruct sx, s; cbn [cond_Zopp negb]; lia.
Qed.

Lemma dyadic_five (q : Z) :
  0 <= q <= 960 -> dyadic (5 * 2 ^ q) q = Prim2SF 5.
Proof.
  intros Hq. change (Prim2SF 5) with (dyadic 5 0).
  rewrite <- (binary_normalize_dyadic 5 0 (Z.to_nat q)) by lia.
  unfold dyadic. rewrite Z2Nat.id by lia. f_equal.
Qed.

Lemma dyadic_minus_five (q : Z) :
  0 <= q <= 960 -> dyadic (- 5 * 2 ^ q) q = Prim2SF (-5).
Proof.
  intros Hq. change (Prim2SF (-5)) with (dyadic (-5) 0).
  rewrite <- (binary_normalize_dyadic (-5) 0 (Z.to_nat q)) by lia.
  unfold dyadic. rewrite Z2Nat.id by lia. f_equal.
Qed.

Lemma dyadic_shape (z q : Z) :
  Z.abs z < 2 ^ 53 -> 0 <= q <= 960 ->
  dyadic z q = S754_zero false
  \/ exists s m e, dyadic z q = S754_finite s m e.
Proof.
  intros Hz Hq. destruct (cond_Zopp_cases z) as [->|(s & c & ->)].
  - left; reflexivity.
  - right. rewrite abs_cond_Zopp in Hz. rewrite dyadic_normal by lia.
    unfold normalD. eauto.
Qed.

Lemma pow2_le_16 (q : Z) : 0 <= q <= 16 -> 1 <= 2 ^ q <= 2 ^ 16.
Proof.
  intros Hq. split.
  - apply (Z.pow_le_mono_r 2 0 q); lia.
  - apply Z.pow_le_mono_r; lia.
Qed.

Lemma Prim2SF_plus_five (p : float) (zp q : Z) :
  Z.abs zp <= 2 ^ 32 -> 0 <= q <= 16 ->
  Prim2SF p = dyadic zp q ->
  Prim2SF (p + 5) = dyadic (zp + 5 * 2 ^ q) q.
Proof.
  intros Hzp Hq Hp. pose proof (pow2_le_16 q Hq) as Hpow.
  rewrite FloatAxioms.add_spec, Hp, <- (dyadic_five q) by lia.
  apply SFadd_dyadic; lia.
Qed.

Lemma Prim2SF_minus_five (p : float) (zp q : Z) :
  Z.abs zp <= 2 ^ 32 -> 0 <= q <= 16 ->
  Prim2SF p = dyadic zp q ->
  Prim2SF (p - 5) = dyadic (zp - 5 * 2 ^ q) q.
Proof.
  intros Hzp Hq Hp. pose proof (pow2_le_16 q Hq) as Hpow.
  rewrite FloatAxioms.sub_spec, Hp.
  pose proof (SFsub_SFadd (dyadic zp q) false 5629499534213120 (-50)) as E.
  change (S754_finite false 5629499534213120 (-50)) with (Prim2SF 5) in E.
  change (S754_finite (negb false) 5629499534213120 (-50))
    with (Prim2SF (-5)) in E.
  unfold SF64sub. rewrite E by (apply dyadic_shape; lia).
  rewrite <- (dyadic_minus_five q) by lia.
  replace (zp - 5 * 2 ^ q) with (zp + - 5 * 2 ^ q) by lia.
  apply SFadd_dyadic; lia.
Qed.

Lemma gridValue_shift (q z k : Z) :
  0 <= q ->
  (gridValue q (z + k * 2 ^ q) == gridValue q z + inject_Z k)%Q.
Proof.
  intros Hq.
  assert (HD : Zpos (Z.to_pos (2 ^ q)) = 2 ^ q)
    by (apply Z2Pos.id, Z.pow_pos_nonneg; lia).
  unfold gridValue, Qeq, Qplus, inject_Z. cbn [Qnum Qden].
  rewrite Pos2Z.inj_mul, HD. ring.
Qed.

Lemma hasValue_eq (x : float) (v w : Q) :
  hasValue x v -> (v == w)%Q -> hasValue x w.
Proof.
  unfold hasValue. destruct (exactValue x) as [u|]; [ | contradiction ].
  intros Hu Hvw. rewrite Hu. exact Hvw.
Qed.

End ExactArithmetic.

(** C2.  With at least 11 samples, [finishCalibration] sets [isCalibrated]
    and stores as [upThreshold] and [downThreshold] the binary64 values 5
    below and 5 above the stored neutral pitch.  When the pitches lie on a
    fixed-point grid (multiples of [2^-q], [q] at most 16, each of at most
    [2^32] steps, at most [2^20] samples) and average to a number [p] of
    that grid, no operation rounds: the stored neutral pitch is [p], which is
    the mean of the pitches over the rationals, [upThreshold] is that mean
    minus 5 and [downThreshold] is that mean plus 5, exactly. *)
Theorem finishCalibration_exact_mean (t : Tracker) :
  (11 <= length (calibrationSamples t))%nat ->
  isCalibrated (finishCalibration t) = true /\
  exists a : float,
    neutralPosition (finishCalibration t) = Some a /\
    upThreshold (finishCalibration t) = a - 5 /\
    downThreshold (finishCalibration t) = a + 5 /\
    forall (q : Z) (zs : list Z) (zp : Z),
      (0 <= q <= 16)%Z ->
      (Z.of_nat (length (calibrationSamples t)) <= 2 ^ 20)%Z ->
      Forall (fun z => (Z.abs z <= 2 ^ 32)%Z) (zp :: zs) ->
      map pitch (calibrationSamples t) = map (fixedPoint q) zs ->
      averagesTo (calibrationSamples t) (fixedPoint q zp) = true ->
      a = fixedPoint q zp /\
      exists m : Q,
        exactMean (calibrationSamples t) = Some m /\
        hasValue a m /\
        hasValue (a - 5) (m - 5)%Q /\
        hasValue (a + 5) (m + 5)%Q.
Proof.
  intros Hlen. rewrite finishCalibration_enough by lia.
  cbn [isCalibrated neutralPosition upThreshold downThreshold].
  split; [ reflexivity | ].
  exists (avgPitch (calibrationSamples t)).
  split; [ reflexivity | ]. split; [ reflexivity | ].
  split; [ reflexivity | ].
  intros q zs zp Hq Hn Hall Hmap Havg.
  set (samples := calibrationSamples t) in *.
  assert (Hne : samples <> []) by (destruct samples; [ simpl in Hlen; lia | discriminate ]).
  assert (Hall53 : Forall (fun z => (Z.abs z < 2 ^ 53)%Z) (zp :: zs)).
  { eapply Forall_impl; [ | exact Hall ]. cbv beta. intros z Hz.
    apply Z.le_lt_trans with (1 := Hz). reflexivity. }
  assert (Hzp : (Z.abs zp <= 2 ^ 32)%Z) by exact (Forall_inv Hall).
  assert (Hq' : (0 <= q <= 960)%Z) by lia.
  destruct (averagesTo_grid q samples zs zp Hq' Hne Hall53 Hmap Havg)
    as (Hmean & m & Hm & Hmeq).
  assert (Hsize : (absTotal zs < 2 ^ 53)%Z).
  { pose proof (absTotal_bound (2 ^ 32) zs (Forall_inv_tail Hall)) as Hb.
    assert (Hlenzs : length zs = length samples).
    { rewrite <- (length_map (fixedPoint q) zs), <- Hmap. apply length_map. }
    rewrite Hlenzs in Hb.
    apply Z.le_lt_trans with (1 := Hb).
    apply Z.le_lt_trans with (2 ^ 20 * 2 ^ 32)%Z; [ | reflexivity ].
    apply Z.mul_le_mono_nonneg_r; [ apply Z.pow_nonneg; lia | exact Hn ]. }
  assert (Hsf : Prim2SF (avgPitch samples) = dyadic zp q).
  { apply (Prim2SF_avgPitch q samples zs zp); try assumption.
    apply Z.le_lt_trans with (1 := Hn). reflexivity. }
  split.
  { apply FloatAxioms.Prim2SF_inj. rewrite Hsf.
    symmetry. apply Prim2SF_fixed; [ exact (Forall_inv Hall53) | exact Hq' ]. }
  exists m. split; [ exact Hm | ].
  pose proof (pow2_le_16 q Hq) as Hpow.
  split; [ | split ].
  - apply (hasValue_eq _ (gridValue q zp)); [ | symmetry; exact Hmeq ].
    apply hasValue_dyadic; [ exact (Forall_inv Hall53) | exact Hq' | exact Hsf ].
  - apply (hasValue_eq _ (gridValue q (zp + (-5) * 2 ^ q))).
    + apply hasValue_dyadic; [ lia | exact Hq' | ].
      replace (zp + -5 * 2 ^ q)%Z with (zp - 5 * 2 ^ q)%Z by lia.
      apply Prim2SF_minus_five; assumption.
    + rewrite gridValue_shift, Hmeq by lia. reflexivity.
  - apply (hasValue_eq _ (gridValue q (zp + 5 * 2 ^ q))).
    + apply hasValue_dyadic; [ lia | exact Hq' | ].
      apply Prim2SF_plus_five; assumption.
    + rewrite gridValue_shift, Hmeq by lia. reflexivity.
Qed.

(** Eleven samples of the binary64 value 2.3 average to that value, and
    [finishCalibration] stores its successor 2.3000000000000003: from the
    fifth addition on, the running sum of the [reduce] is rounded.  Neither
    threshold is the binary64 value 5 away from 2.3. *)
Lemma rounded_sum_shifts_neutral :
  length (calibrationSamples (collecting 11 2.3)) = 11%nat /\
  averagesTo (calibrationSamples (collecting 11 2.3)) 2.3 = true /\
  neutralPosition (finishCalibration (collecting 11 2.3))
  = Some 2.3000000000000003 /\
  (2.3000000000000003 =? 2.3) = false /\
  upThreshold (finishCalibration (collecting 11 2.3)) = -2.6999999999999997 /\
  (-2.6999999999999997 =? 2.3 - 5) = false /\
  downThreshold (finishCalibration (collecting 11 2.3)) = 7.3000000000000007 /\
  (7.3000000000000007 =? 2.3 + 5) = false /\
  isCalibrated (finishCalibration (collecting 11 2.3)) = true.
Proof. repeat split; vm_compute; reflexivity. Qed.

(** C5.  With at most 10 samples, [finishCalibration] is
    [setDefaultCalibration]: neutral pitch 0, thresholds -5 and 5, and the
    tracker is calibrated, with thresholds in the order the classifier
    expects.  [finishCalibration] is a total function: no branch raises. *)
Theorem finishCalibration_default (t : Tracker) :
  (length (calibrationSamples t) <= 10)%nat ->
  finishCalibration t = setDefaultCalibration t /\
  neutralPosition (finishCalibration t) = Some 0 /\
  upThreshold (finishCalibration t) = -5 /\
  downThreshold (finishCalibration t) = 5 /\
  isCalibrated (finishCalibration t) = true /\
  (upThreshold (finishCalibration t) <? downThreshold (finishCalibration t))
  = true.
Proof.
  intros Hlen. unfold finishCalibration.
  destruct (Nat.ltb_spec 10 (length (calibrationSamples t))) as [Hgt|_];
    [ lia | ].
  simpl. repeat split.
Qed.

(** ** Temporal stabilizer *)


Lemma pose_eqb_refl (p : Pose) : pose_eqb p p = true.
Proof. destruct p; reflexivity. Qed.

Lemma pose_eqb_sym (p q : Pose) : pose_eqb p q = pose_eqb q p.
Proof. destruct p, q; reflexivity. Qed.

Lemma pose_eqb_eq (p q : Pose) : pose_eqb p q = true <-> p = q.
Proof. destruct p, q; simpl; split; congruence. Qed.

Lemma addWeight_twice (counts : Counts) (p : Pose) (w1 w2 w : Z) :
  (w = w1 + w2)%Z ->
  addWeight (addWeight counts p w1) p w2 = addWeight counts p w.
Proof.
  intros ->. induction counts as [|[k v] rest IH]; simpl.
  - rewrite pose_eqb_refl. reflexivity.
  - destruct (pose_eqb k p) eqn:E; simpl; rewrite E.
    + rewrite <- Z.add_assoc. reflexivity.
    + f_equal. exact IH.
Qed.

Lemma countFrom_app (len index : nat) (l1 l2 : list Pose) (counts : Counts) :
  countFrom len index (l1 ++ l2) counts
  = countFrom len (index + length l1) l2 (countFrom len index l1 counts).
Proof.
  revert index counts.
  induction l1 as [|p l1 IH]; intros index counts; simpl.
  - rewrite Nat.add_0_r. reflexivity.
  - rewrite IH. f_equal. lia.
Qed.

(** A run of equal entries adds up to one update of [counts]. *)
Lemma countFrom_run (len : nat) (p : Pose) (k index : nat) (counts : Counts) :
  countFrom len index (repeat p (S k)) counts
  = addWeight counts p (runWeight len index (S k)).
Proof.
  revert index counts.
  induction k as [|k IH]; intros index counts.
  - simpl. f_equal. unfold runWeight.
    destruct (Nat.eqb_spec index (len - 1)),
             (Nat.leb_spec index (len - 1)),
             (Nat.ltb_spec (len - 1) (index + 1)); cbn [andb]; lia.
  - change (repeat p (S (S k))) with (p :: repeat p (S k)).
    cbn [countFrom]. rewrite IH. apply addWeight_twice.
    unfold runWeight.
    destruct (Nat.eqb_spec index (len - 1)),
             (Nat.leb_spec index (len - 1)),
             (Nat.leb_spec (S index) (len - 1)),
             (Nat.ltb_spec (len - 1) (S index + S k)),
             (Nat.ltb_spec (len - 1) (index + S (S k))); cbn [andb]; lia.
Qed.

Lemma runWeight_inner (len index k : nat) :
  (index + k < len)%nat -> runWeight len index k = Z.of_nat k.
Proof.
  intros H. unfold runWeight.
  destruct (Nat.leb_spec index (len - 1)),
           (Nat.ltb_spec (len - 1) (index + k)); cbn [andb]; lia.
Qed.

Lemma runWeight_final (len index k : nat) :
  (0 < k)%nat -> (index + k = len)%nat ->
  runWeight len index k = (Z.of_nat k + 1)%Z.
Proof.
  intros Hk H. unfold runWeight.
  destruct (Nat.leb_spec index (len - 1)),
           (Nat.ltb_spec (len - 1) (index + k)); cbn [andb]; lia.
Qed.

(** The votes of a window that holds one entry [c] among neutral ones. *)
Lemma countPoses_outlier (a b : nat) (c : Pose) :
  c <> neutral ->
  countPoses (repeat neutral a ++ c :: repeat neutral b)
  = match a, b with
    | O, O => [(c, 2%Z)]
    | O, S _ => [(c, 1%Z); (neutral, Z.of_nat b + 1)%Z]
    | S _, O => [(neutral, Z.of_nat a); (c, 2%Z)]
    | S _, S _ => [(neutral, Z.of_nat a + Z.of_nat b + 1)%Z; (c, 1%Z)]
    end.
Proof.
  intros Hc. unfold countPoses.
  rewrite length_app, repeat_length. cbn [length]. rewrite repeat_length.
  destruct a as [|a], b as [|b].
  - destruct c; try congruence; reflexivity.
  - change (repeat neutral 0) with (@nil Pose).
    cbn [app countFrom addWeight].
    rewrite countFrom_run, runWeight_final by lia.
    destruct c; try congruence; reflexivity.
  - rewrite countFrom_app, countFrom_run, runWeight_inner, repeat_length
      by lia.
    cbn [countFrom addWeight].
    replace (0 + S a =? S a + 1 - 1)%nat with true
      by (symmetry; apply Nat.eqb_eq; lia).
    destruct c; try congruence; simpl; reflexivity.
  - rewrite countFrom_app, countFrom_run, runWeight_inner, repeat_length
      by lia.
    cbn [countFrom addWeight].
    replace (0 + S a =? S a + S (S b) - 1)%nat with false
      by (symmetry; apply Nat.eqb_neq; lia).
    rewrite countFrom_run, runWeight_final by lia.
    destruct c; try congruence; cbn [addWeight pose_eqb];
      replace (0 + Z.of_nat (S a) + (Z.of_nat (S b) + 1))%Z
        with (Z.of_nat (S a) + Z.of_nat (S b) + 1)%Z by lia;
      reflexivity.
Qed.

(** *** The model of the vote

    [countPoses] gives every label the weight the design describes, and
    [sortEntries] is the stable descending sort: its result is a permutation
    of the entries, descending by weight, with entries of equal weight in
    their original order. *)

Lemma weightOf_addWeight (counts : Counts) (q p : Pose) (w : Z) :
  weightOf (addWeight counts q w) p
  = (weightOf counts p + if pose_eqb q p then w else 0)%Z.
Proof.
  induction counts as [|[k v] rest IH]; simpl.
  - destruct (pose_eqb q p); lia.
  - destruct (pose_eqb k q) eqn:Ekq; simpl.
    + apply pose_eqb_eq in Ekq. subst k.
      destruct (pose_eqb q p); lia.
    + destruct (pose_eqb k p) eqn:Ekp; [ | exact IH ].
      apply pose_eqb_eq in Ekp. subst k.
      rewrite (pose_eqb_sym q p), Ekq. lia.
Qed.

Lemma weightOf_countFrom (poses : list Pose) (len index : nat)
  (counts : Counts) (p : Pose) :
  (index + length poses = len)%nat ->
  weightOf (countFrom len index poses counts) p
  = (weightOf counts p + voteFor poses p)%Z.
Proof.
  revert index counts.
  induction poses as [|q rest IH]; intros index counts Hlen.
  - unfold voteFor. simpl. lia.
  - cbn [countFrom]. rewrite IH by (simpl in Hlen; lia).
    rewrite weightOf_addWeight. unfold voteFor.
    cbn [filter length rev]. simpl in Hlen.
    rewrite (pose_eqb_sym q p).
    destruct rest as [|r rest'].
    + replace (index =? len - 1)%nat with true
        by (symmetry; apply Nat.eqb_eq; simpl in Hlen; lia).
      simpl. destruct (pose_eqb p q); simpl; lia.
    + replace (index =? len - 1)%nat with false
        by (symmetry; apply Nat.eqb_neq; simpl in Hlen; lia).
      assert (Hrev : exists latest front, rev (r :: rest') = latest :: front).
      { destruct (rev (r :: rest')) as [|latest front] eqn:E.
        - apply (f_equal (@length Pose)) in E.
          rewrite length_rev in E. discriminate E.
        - eauto. }
      destruct Hrev as (latest & front & ->). cbn [app].
      destruct (pose_eqb p q); cbn [length]; lia.
Qed.

Lemma countPoses_voteFor (poseHistory : list Pose) (p : Pose) :
  weightOf (countPoses poseHistory) p = voteFor poseHistory p.
Proof.
  unfold countPoses. rewrite weightOf_countFrom by reflexivity. reflexivity.
Qed.

Lemma insertSorted_perm (e : Pose * Z) (sorted : Counts) :
  Permutation (insertSorted e sorted) (e :: sorted).
Proof.
  induction sorted as [|a rest IH]; simpl.
  - reflexivity.
  - destruct (0 <? byWeightDesc a e)%Z; [ reflexivity | ].
    rewrite IH. apply perm_swap.
Qed.

Lemma insertSorted_sorted (e : Pose * Z) (sorted : Counts) :
  StronglySorted heavierFirst sorted ->
  StronglySorted heavierFirst (insertSorted e sorted).
Proof.
  induction 1 as [|a rest Hsorted IH Hall]; simpl.
  - repeat constructor.
  - unfold byWeightDesc.
    destruct (Z.ltb_spec 0 (snd e - snd a)) as [Hlt|Hge].
    + constructor; [ constructor; assumption | ].
      constructor; [ unfold heavierFirst; lia | ].
      eapply Forall_impl; [ | exact Hall ].
      unfold heavierFirst. intros b Hb. lia.
    + constructor; [ exact IH | ].
      eapply Permutation_Forall; [ symmetry; apply insertSorted_perm | ].
      constructor; [ unfold heavierFirst; lia | exact Hall ].
Qed.

Lemma ofWeight_lighter (w : Z) (entries : Counts) (bound : Z) :
  (bound < w)%Z ->
  Forall (fun b => snd b <= bound)%Z entries ->
  filter (fun e => (snd e =? w)%Z) entries = [].
Proof.
  intros Hbound. induction 1 as [|b rest Hb _ IH]; simpl.
  - reflexivity.
  - replace (snd b =? w)%Z with false by (symmetry; apply Z.eqb_neq; lia).
    exact IH.
Qed.

Lemma insertSorted_stable (w : Z) (e : Pose * Z) (sorted : Counts) :
  StronglySorted heavierFirst sorted ->
  ofWeight w (insertSorted e sorted) = ofWeight w sorted ++ ofWeight w [e].
Proof.
  unfold ofWeight.
  induction 1 as [|a rest Hsorted IH Hall]; simpl.
  - reflexivity.
  - unfold byWeightDesc.
    destruct (Z.ltb_spec 0 (snd e - snd a)) as [Hlt|Hge]; simpl.
    + destruct (Z.eqb_spec (snd e) w) as [He|He]; [ | now rewrite app_nil_r ].
      replace (snd a =? w)%Z with false by (symmetry; apply Z.eqb_neq; lia).
      rewrite (ofWeight_lighter w rest (snd a)); [ reflexivity | lia | ].
      exact Hall.
    + rewrite IH. destruct (snd a =? w)%Z; reflexivity.
Qed.

Lemma sortEntries_from (entries sorted : Counts) :
  StronglySorted heavierFirst sorted ->
  let result := fold_left (fun sorted e => insertSorted e sorted) entries sorted in
  StronglySorted heavierFirst result /\
  Permutation result (sorted ++ entries) /\
  forall w, ofWeight w result = ofWeight w sorted ++ ofWeight w entries.
Proof.
  revert sorted. induction entries as [|e entries IH]; intros sorted Hsorted.
  - simpl. rewrite app_nil_r. unfold ofWeight. simpl.
    split; [ assumption | split; [ reflexivity | ] ].
    intros w. now rewrite app_nil_r.
  - cbn [fold_left].
    destruct (IH (insertSorted e sorted) (insertSorted_sorted e sorted Hsorted))
      as (Hs & Hp & Hw).
    split; [ exact Hs | split ].
    + rewrite Hp, insertSorted_perm. apply Permutation_middle.
    + intros w. rewrite Hw, insertSorted_stable by assumption.
      rewrite <- app_assoc. f_equal.
      unfold ofWeight. simpl. destruct (snd e =? w)%Z; reflexivity.
Qed.

Lemma sortEntries_stable_sort (entries : Counts) :
  StronglySorted heavierFirst (sortEntries entries) /\
  Permutation (sortEntries entries) entries /\
  forall w, ofWeight w (sortEntries entries) = ofWeight w entries.
Proof.
  exact (sortEntries_from entries [] (SSorted_nil _)).
Qed.

(** The entry that [getSmoothedPose] reads as [sortedPoses[0]] exists
    whenever the history is not empty. *)
Lemma sortedPoses_nonempty (poseHistory : list Pose) :
  poseHistory <> [] -> sortEntries (countPoses poseHistory) <> [].
Proof.
  intros Hne Hnil.
  destruct (sortEntries_stable_sort (countPoses poseHistory)) as (_ & Hperm & _).
  rewrite Hnil in Hperm. apply Permutation_nil in Hperm.
  destruct poseHistory as [|p rest]; [ congruence | ].
  assert (Hw : forall l len index counts,
             counts <> [] -> countFrom len index l counts <> []).
  { induction l as [|q l IH]; intros len index counts Hc; simpl.
    - exact Hc.
    - apply IH. destruct counts as [|[k v] counts']; simpl;
        [ discriminate | destruct (pose_eqb k q); discriminate ]. }
  unfold countPoses in Hperm. cbn [countFrom] in Hperm.
  revert Hperm. apply Hw. simpl. discriminate.
Qed.

(** C4.  A window that holds a single non-neutral entry and at least two
    neutral entries, in any position and for any window length, is smoothed
    to [neutral]. *)
Theorem getSmoothedPose_rejects_outlier (t : Tracker) (a b : nat) (c : Pose) :
  c <> neutral ->
  (2 <= a + b)%nat ->
  poseHistory t = repeat neutral a ++ c :: repeat neutral b ->
  getSmoothedPose t = neutral.
Proof.
  intros Hc Hab Hh. unfold getSmoothedPose. rewrite Hh.
  destruct (repeat neutral a ++ c :: repeat neutral b) as [|p h] eqn:E.
  - destruct a; discriminate.
  - rewrite <- E, countPoses_outlier by assumption.
    unfold sortEntries, minConfidenceFrames.
    destruct a as [|a], b as [|b]; try lia;
      cbn [fold_left insertSorted]; unfold byWeightDesc; cbn [snd].
    + destruct (Z.ltb_spec 0 (Z.of_nat (S b) + 1 - 1)); [ | lia ].
      reflexivity.
    + destruct (Z.ltb_spec 0 (2 - Z.of_nat (S a))); [ lia | ].
      reflexivity.
    + destruct (Z.ltb_spec 0 (1 - (Z.of_nat (S a) + Z.of_nat (S b) + 1)));
        [ lia | ].
      reflexivity.
Qed.

(** C6.  In a window of at most [maxHistoryLength] = 3 entries whose two most
    recent entries are the same non-neutral command, the smoothed pose is
    that command. *)
Theorem getSmoothedPose_follows_run (t : Tracker) (older : list Pose)
  (c : Pose) :
  c <> neutral ->
  (length (poseHistory t) <= maxHistoryLength)%nat ->
  poseHistory t = older ++ [c; c] ->
  getSmoothedPose t = c.
Proof.
  intros Hc Hlen Hh. unfold getSmoothedPose. rewrite Hh in *.
  rewrite length_app in Hlen. unfold maxHistoryLength in Hlen. simpl in Hlen.
  destruct older as [|o [|o' older]]; simpl in Hlen; try lia.
  - destruct c; try congruence; reflexivity.
  - destruct c, o; try congruence; reflexivity.
Qed.

Lemma pushPose_latest (h : list Pose) (c : Pose) :
  exists older, pushPose h c = older ++ [c].
Proof.
  unfold pushPose.
  destruct (maxHistoryLength <? length (h ++ [c]))%nat eqn:E.
  - destruct h as [|p h]; [ discriminate E | ]. exists h. reflexivity.
  - exists h. reflexivity.
Qed.

(** The latest entry has its count among the older entries, plus 2. *)
Lemma weightOf_latest (older : list Pose) (c : Pose) :
  weightOf (countPoses (older ++ [c])) c
  = (Z.of_nat (length (filter (pose_eqb c) older)) + 2)%Z.
Proof.
  rewrite countPoses_voteFor. unfold voteFor.
  rewrite rev_app_distr, filter_app, length_app. simpl.
  rewrite pose_eqb_refl. simpl. lia.
Qed.

Lemma filter_absent (older : list Pose) (c : Pose) :
  ~ In c older -> filter (pose_eqb c) older = [].
Proof.
  induction older as [|p older IH]; intros Hnot; simpl.
  - reflexivity.
  - destruct (pose_eqb c p) eqn:E.
    + apply pose_eqb_eq in E. subst p. exfalso. apply Hnot. left. reflexivity.
    + apply IH. intros Hin. apply Hnot. right. exact Hin.
Qed.

(** Which label wins after a push, window by window. *)
Lemma getSmoothedPose_pushed (t : Tracker) (c : Pose) :
  c <> neutral ->
  (length (poseHistory t) <= maxHistoryLength)%nat ->
  let window := pushPose (poseHistory t) c in
  let smoothed := getSmoothedPose (set_history t window) in
  ((forall l, l <> c -> window <> [l; l; c]) -> smoothed = c) /\
  (forall l, l <> c -> window = [l; l; c] -> smoothed = l).
Proof.
  intros Hc Hlen. unfold maxHistoryLength in Hlen.
  destruct t as [ini cur h cal np cs ut dt btn]. simpl in Hlen.
  unfold getSmoothedPose. simpl.
  destruct h as [|p1 [|p2 [|p3 [|p4 h]]]]; simpl in Hlen; try lia;
    destruct c; try congruence;
    repeat match goal with p : Pose |- _ => destruct p end;
    split.
  all: try (intros _; reflexivity).
  all: try (intros l Hl Heq; vm_compute in Heq;
            first [ discriminate Heq
                  | injection Heq; intros; subst;
                    first [ congruence | reflexivity ] ]).
  all: intros Hno; exfalso;
    first [ apply (Hno neutral); [ discriminate | reflexivity ]
          | apply (Hno up); [ discriminate | reflexivity ]
          | apply (Hno down); [ discriminate | reflexivity ] ].
Qed.

(** C3, amended.  Pushing a non-neutral command [c] onto a window of at
    most 3 entries gives [c] a weight of at least [minConfidenceFrames] = 2,
    and of exactly 2 when [c] is not among the older entries.  The smoothed
    pose becomes [c], except when the two older entries kept in the window
    are one label [l] other than [c]: [l] then has weight 2 as well, comes
    first among the counted labels, and is the smoothed pose. *)
Theorem updateHeadPose_flip_condition (t : Tracker) (c : Pose)
  (headData : PoseSample) :
  c <> neutral ->
  (length (poseHistory t) <= maxHistoryLength)%nat ->
  let t' := updateHeadPose t c headData in
  (minConfidenceFrames <= weightOf (countPoses (poseHistory t')) c)%Z /\
  (forall older,
      poseHistory t' = older ++ [c] -> ~ In c older ->
      weightOf (countPoses (poseHistory t')) c = 2%Z) /\
  ((forall l, l <> c -> poseHistory t' <> [l; l; c]) ->
   currentHeadPose t' = c) /\
  (forall l, l <> c -> poseHistory t' = [l; l; c] ->
   currentHeadPose t' = l).
Proof.
  intros Hc Hlen t'.
  assert (Hwindow : poseHistory t' = pushPose (poseHistory t) c)
    by reflexivity.
  split; [ | split ].
  - destruct (pushPose_latest (poseHistory t) c) as [older E].
    rewrite Hwindow, E, weightOf_latest. unfold minConfidenceFrames. lia.
  - intros older E Hnot.
    rewrite E, weightOf_latest, (filter_absent older c Hnot). reflexivity.
  - rewrite Hwindow. exact (getSmoothedPose_pushed t c Hc Hlen).
Qed.

(** ** Command accessor *)

(** C7.  [getCurrentInput] returns [null] exactly when the tracker is not
    initialised, not calibrated, or its current pose is neutral; otherwise it
    returns an object whose [up] and [down] flags are never both set (and one
    of them is). *)
Theorem getCurrentInput_exclusive (t : Tracker) :
  match getCurrentInput t with
  | None =>
      isInitialized t = false \/ isCalibrated t = false
      \/ currentHeadPose t = neutral
  | Some input =>
      (isInitialized t = true /\ isCalibrated t = true
       /\ currentHeadPose t <> neutral)
      /\ (Input.up input && Input.down input = false)
      /\ (Input.up input || Input.down input = true)
      /\ Input.left input = false /\ Input.right input = false
  end.
Proof.
  unfold getCurrentInput.
  destruct (isInitialized t), (isCalibrated t), (currentHeadPose t); simpl;
    intuition congruence.
Qed.

(** ** Frames, timers and clicks *)

Section FrameProperties.

Variable atan2 : float -> float -> float.
Variable round : float -> float.

Lemma updateCalibrationUI_below (t : Tracker) (progress : nat) :
  (progress < calibrationFrames)%nat ->
  isCalibrated (updateCalibrationUI round t progress) = isCalibrated t /\
  calibrationSamples (updateCalibrationUI round t progress)
  = calibrationSamples t.
Proof.
  intros H. unfold updateCalibrationUI.
  destruct (Nat.leb_spec calibrationFrames progress); [ lia | ].
  split; reflexivity.
Qed.

(** An uncalibrated tracker stays uncalibrated while its samples, plus the
    faces still to come, stay short of [calibrationFrames]. *)
Lemma step_uncalibrated (w w' : World) (e : Event) :
  isCalibrated (tracker w) = false ->
  (length (calibrationSamples (tracker w)) + faces [e]
   < calibrationFrames)%nat ->
  step atan2 round w e = Some w' ->
  isCalibrated (tracker w') = false /\
  (length (calibrationSamples (tracker w'))
   <= length (calibrationSamples (tracker w)) + faces [e])%nat.
Proof.
  intros Hcal Hlen Hstep. destruct w as [t n]. simpl in *.
  destruct e as [ | [[[|landmarks faces']|]] | | | ]; simpl in Hstep.
  - injection Hstep as <-. simpl. split; [ assumption | lia ].
  - injection Hstep as <-. simpl. split; [ assumption | lia ].
  - unfold processResults in Hstep. simpl in Hstep.
    destruct (calculateHeadPose atan2 landmarks) as [headData|].
    + rewrite Hcal in Hstep. simpl in Hstep.
      unfold faces in Hlen. simpl in Hlen.
      destruct (Nat.ltb_spec (length (calibrationSamples t))
                             calibrationFrames); [ | lia ].
      injection Hstep as <-. simpl.
      destruct (updateCalibrationUI_below
                  (set_samples t (calibrationSamples t ++ [headData]))
                  (length (calibrationSamples t ++ [headData]))) as [-> ->].
      * rewrite length_app. simpl. lia.
      * simpl. rewrite length_app. unfold faces. simpl.
        split; [ assumption | lia ].
    + injection Hstep as <-. simpl. split; [ assumption | lia ].
  - injection Hstep as <-. simpl. split; [ assumption | lia ].
  - destruct n as [|n]; [ discriminate | ].
    injection Hstep as <-. cbn [tracker]. unfold startCalibration.
    destruct (updateCalibrationUI_below (set_samples t []) 0) as [-> ->].
    + unfold calibrationFrames. lia.
    + simpl. split; [ assumption | lia ].
  - injection Hstep as <-. simpl. split; [ reflexivity | lia ].
  - injection Hstep as <-. simpl. split; [ reflexivity | lia ].
Qed.

Lemma faces_cons (e : Event) (events : list Event) :
  faces (e :: events) = (faces [e] + faces events)%nat.
Proof. unfold faces. simpl. destruct (hasFace e); reflexivity. Qed.

Lemma run_uncalibrated (events : list Event) (w w' : World) :
  isCalibrated (tracker w) = false ->
  (length (calibrationSamples (tracker w)) + faces events
   < calibrationFrames)%nat ->
  run atan2 round w events = Some w' ->
  isCalibrated (tracker w') = false.
Proof.
  revert w. induction events as [|e events IH]; intros w Hcal Hlen Hrun.
  - injection Hrun as <-. assumption.
  - simpl in Hrun. rewrite faces_cons in Hlen.
    destruct (step atan2 round w e) as [w1|] eqn:Hstep; [ | discriminate ].
    destruct (step_uncalibrated w w1 e Hcal ltac:(lia) Hstep) as [Hcal1 Hlen1].
    apply (IH w1); [ assumption | lia | assumption ].
Qed.

Lemma uncalibrated_no_input (t : Tracker) :
  isCalibrated t = false -> getCurrentInput t = None.
Proof.
  intros H. unfold getCurrentInput. rewrite H.
  destruct (isInitialized t); reflexivity.
Qed.

(** The fallback label is never written along a run. *)
Lemma step_never_default (w w' : World) (e : Event) :
  textContent (calibrateButton (tracker w)) <> TxtActiveDefault ->
  step atan2 round w e = Some w' ->
  textContent (calibrateButton (tracker w')) <> TxtActiveDefault.
Proof.
  intros Hbtn Hstep. destruct w as [t n]. simpl in *.
  destruct e as [ | [[[|landmarks faces']|]] | | | ]; simpl in Hstep;
    try (injection Hstep as <-; simpl; first [ assumption | discriminate ]).
  - unfold processResults in Hstep. simpl in Hstep.
    destruct (calculateHeadPose atan2 landmarks) as [headData|];
      [ | injection Hstep as <-; assumption ].
    destruct (isCalibrated t); simpl in Hstep.
    + injection Hstep as <-. simpl. assumption.
    + destruct (Nat.ltb_spec (length (calibrationSamples t))
                             calibrationFrames);
        [ | injection Hstep as <-; assumption ].
      injection Hstep as <-. cbn [tracker].
      unfold updateCalibrationUI.
      destruct (Nat.leb_spec calibrationFrames
                  (length (calibrationSamples t ++ [headData]))).
      * rewrite finishCalibration_label; [ discriminate | ].
        cbn [set_button set_samples calibrationSamples].
        unfold calibrationFrames in *. lia.
      * cbn. discriminate.
  - destruct n as [|n]; [ discriminate | ].
    injection Hstep as <-. cbn. discriminate.
Qed.

(** C8.  A frame without a face, with [multiFaceLandmarks] missing or
    empty, returns at once: [processResults] yields the tracker it was
    given, so the pose history, the current pose, the calibration samples
    and what [getCurrentInput] reports are as before. *)
Theorem processResults_no_face (t : Tracker) (results : Results) :
  multiFaceLandmarks results = None \/ multiFaceLandmarks results = Some [] ->
  exists t',
    processResults atan2 round t results = Some t' /\
    poseHistory t' = poseHistory t /\
    currentHeadPose t' = currentHeadPose t /\
    length (calibrationSamples t') = length (calibrationSamples t) /\
    getCurrentInput t' = getCurrentInput t /\
    t' = t.
Proof.
  intros H. exists t. unfold processResults.
  destruct H as [-> | ->]; repeat split.
Qed.

(** C9.  [recalibrate] clears the calibrated flag, the samples, the pose
    history and the current pose, so [getCurrentInput] returns [null] right
    away; it keeps returning [null] after any further frames, timers and
    clicks as long as the tracker has not become calibrated again, which
    takes at least [calibrationFrames] frames with a face.  In any state,
    [getCurrentInput] returns an object only if the tracker is initialised
    and calibrated. *)
Theorem recalibrate_silences (t : Tracker) (pending : nat)
  (events : list Event) (w' : World) :
  run atan2 round (mkWorld (recalibrate t) pending) events = Some w' ->
  (faces events < calibrationFrames)%nat
  \/ isCalibrated (tracker w') = false ->
  (isCalibrated (recalibrate t) = false /\
   calibrationSamples (recalibrate t) = [] /\
   poseHistory (recalibrate t) = [] /\
   currentHeadPose (recalibrate t) = neutral) /\
  getCurrentInput (recalibrate t) = None /\
  getCurrentInput (tracker w') = None /\
  (forall u input,
      getCurrentInput u = Some input ->
      isInitialized u = true /\ isCalibrated u = true).
Proof.
  intros Hrun Hwhen.
  split; [ repeat split | ].
  split; [ apply uncalibrated_no_input; reflexivity | ].
  split.
  - apply uncalibrated_no_input. destruct Hwhen as [Hfew | Hcal].
    + apply (run_uncalibrated events (mkWorld (recalibrate t) pending) w');
        [ reflexivity | simpl; exact Hfew | exact Hrun ].
    + exact Hcal.
  - intros u input Hinput. unfold getCurrentInput in Hinput.
    destruct (isInitialized u), (isCalibrated u);
      try discriminate Hinput.
    split; reflexivity.
Qed.

(** C10.  On the frame path [finishCalibration] runs only when the pushed
    sample is the 60th: a frame that turns an uncalibrated tracker into a
    calibrated one leaves [calibrationFrames] samples and the personalised
    thresholds, and [updateCalibrationUI] below that count calibrates
    nothing.  No run of frames, timers and clicks ever shows the
    default-calibration label, and without frames that carry a face an
    uncalibrated tracker stays uncalibrated. *)
Theorem frame_path_never_falls_back :
  (forall t results t',
      isCalibrated t = false ->
      processResults atan2 round t results = Some t' ->
      isCalibrated t' = true ->
      length (calibrationSamples t') = calibrationFrames /\
      neutralPosition t' = Some (avgPitch (calibrationSamples t')) /\
      upThreshold t' = avgPitch (calibrationSamples t') - 5 /\
      downThreshold t' = avgPitch (calibrationSamples t') + 5 /\
      textContent (calibrateButton t') = TxtCalibrated) /\
  (forall t progress,
      (progress < calibrationFrames)%nat ->
      isCalibrated (updateCalibrationUI round t progress) = isCalibrated t) /\
  (forall w events w',
      textContent (calibrateButton (tracker w)) <> TxtActiveDefault ->
      run atan2 round w events = Some w' ->
      textContent (calibrateButton (tracker w')) <> TxtActiveDefault) /\
  (forall w events w',
      isCalibrated (tracker w) = false ->
      (length (calibrationSamples (tracker w)) < calibrationFrames)%nat ->
      faces events = 0%nat ->
      run atan2 round w events = Some w' ->
      isCalibrated (tracker w') = false).
Proof.
  split; [ | split; [ | split ] ].
  - intros t [[[|landmarks rest]|]] t' Hcal Hres Hcal';
      unfold processResults in Hres; cbn [multiFaceLandmarks] in Hres;
      try (injection Hres as <-; congruence).
    destruct (calculateHeadPose atan2 landmarks) as [headData|];
      [ | discriminate ].
    rewrite Hcal in Hres. cbn [negb] in Hres.
    destruct (Nat.ltb_spec (length (calibrationSamples t)) calibrationFrames)
      as [Hlt|Hge]; [ | injection Hres as <-; congruence ].
    injection Hres as <-.
    cbn [set_samples calibrationSamples] in *.
    unfold updateCalibrationUI in *.
    destruct (Nat.leb_spec calibrationFrames
                (length (calibrationSamples t ++ [headData]))) as [Hfull|Hnot];
      [ | cbn in Hcal'; congruence ].
    rewrite length_app in Hfull. cbn [length] in Hfull.
    rewrite finishCalibration_enough.
    + cbn. rewrite length_app. cbn [length].
      unfold calibrationFrames in *. repeat split. lia.
    + cbn. rewrite length_app. cbn [length].
      unfold calibrationFrames in *. lia.
  - intros t progress Hlt. apply updateCalibrationUI_below. exact Hlt.
  - intros w events. revert w.
    induction events as [|e events IH]; intros w w' Hbtn Hrun.
    + injection Hrun as <-. exact Hbtn.
    + simpl in Hrun.
      destruct (step atan2 round w e) as [w1|] eqn:Hstep; [ | discriminate ].
      apply (IH w1 w'); [ | exact Hrun ].
      exact (step_never_default w w1 e Hbtn Hstep).
  - intros w events w' Hcal Hlen Hnone Hrun.
    apply (run_uncalibrated events w w' Hcal); [ | exact Hrun ].
    rewrite Hnone. lia.
Qed.

End FrameProperties.

(** * The properties on sample inputs *)

Lemma determineHeadPose_thresholds_witness :
  determineHeadPose activeDefault (sampleAt (-6)) = down /\
  determineHeadPose activeDefault (sampleAt 6) = up /\
  determineHeadPose activeDefault (sampleAt 0) = neutral /\
  determineHeadPose activeDefault (sampleAt (-5)) = neutral /\
  determineHeadPose activeDefault (sampleAt 5) = neutral.
Proof.
  pose proof (fun p =>
    determineHeadPose_thresholds activeDefault (sampleAt p) eq_refl eq_refl)
    as H.
  destruct (H (-6)) as (Hbelow & _).
  destruct (H 6) as (_ & Habove & _).
  destruct (H 0) as (_ & _ & Hwithin & _).
  destruct (H (-5)) as (_ & _ & _ & HatUp & _).
  destruct (H 5) as (_ & _ & _ & _ & HatDown).
  split; [ apply Hbelow; reflexivity | ].
  split; [ apply Habove; reflexivity | ].
  split; [ apply Hwithin; reflexivity | ].
  split; [ apply HatUp; reflexivity | apply HatDown; reflexivity ].
Defined.

Lemma finishCalibration_exact_mean_witness :
  isCalibrated (finishCalibration halfDegrees) = true /\
  neutralPosition (finishCalibration halfDegrees) = Some (-7) /\
  upThreshold (finishCalibration halfDegrees) = -12 /\
  downThreshold (finishCalibration halfDegrees) = -2 /\
  hasValue (upThreshold (finishCalibration halfDegrees)) (-12) /\
  hasValue (downThreshold (finishCalibration halfDegrees)) (-2).
Proof.
  destruct (finishCalibration_exact_mean halfDegrees)
    as (Hcal & a & Hneutral & Hup & Hdown & Hexact).
  { simpl. lia. }
  destruct (Hexact 1%Z
              [-15; -13; -15; -13; -15; -13; -15; -13; -15; -13; -15; -13]%Z
              (-14)%Z)
    as (Ha & m & Hm & _ & Hlow & Hhigh).
  { lia. }
  { vm_compute. discriminate. }
  { repeat constructor; vm_compute; discriminate. }
  { vm_compute. reflexivity. }
  { vm_compute. reflexivity. }
  rewrite Hup, Hdown, Hneutral, Ha.
  repeat split; try assumption; vm_compute; reflexivity.
Defined.

Lemma finishCalibration_default_witness :
  finishCalibration (collecting 10 2) = setDefaultCalibration (collecting 10 2) /\
  neutralPosition (finishCalibration (collecting 10 2)) = Some 0 /\
  upThreshold (finishCalibration (collecting 10 2)) = -5 /\
  downThreshold (finishCalibration (collecting 10 2)) = 5 /\
  isCalibrated (finishCalibration (collecting 10 2)) = true /\
  (upThreshold (finishCalibration (collecting 10 2))
   <? downThreshold (finishCalibration (collecting 10 2))) = true.
Proof.
  apply (finishCalibration_default (collecting 10 2)). simpl. lia.
Defined.

Lemma getSmoothedPose_rejects_outlier_witness :
  getSmoothedPose (withHistory [neutral; neutral; up]) = neutral /\
  getSmoothedPose (withHistory [neutral; down; neutral]) = neutral /\
  getSmoothedPose (withHistory [up; neutral; neutral]) = neutral.
Proof.
  split; [ | split ].
  - apply (getSmoothedPose_rejects_outlier _ 2 0 up);
      [ discriminate | simpl; lia | reflexivity ].
  - apply (getSmoothedPose_rejects_outlier _ 1 1 down);
      [ discriminate | simpl; lia | reflexivity ].
  - apply (getSmoothedPose_rejects_outlier _ 0 2 up);
      [ discriminate | simpl; lia | reflexivity ].
Defined.

Lemma getSmoothedPose_follows_run_witness :
  getSmoothedPose (withHistory [down; up; up]) = up /\
  getSmoothedPose (withHistory [down; down]) = down.
Proof.
  split.
  - apply (getSmoothedPose_follows_run _ [down] up);
      [ discriminate | simpl; unfold maxHistoryLength; lia | reflexivity ].
  - apply (getSmoothedPose_follows_run _ [] down);
      [ discriminate | simpl; unfold maxHistoryLength; lia | reflexivity ].
Defined.

(** C3 as stated fails.  After two neutral frames, a pushed [up] has weight 2
    and meets [minConfidenceFrames], yet the smoothed pose stays [neutral]
    and [getCurrentInput] keeps returning [null]. *)
Lemma pushed_command_suppressed :
  poseHistory (updateHeadPose (withHistory [neutral; neutral]) up (sampleAt 6))
  = [neutral; neutral; up] /\
  weightOf
    (countPoses
       (poseHistory
          (updateHeadPose (withHistory [neutral; neutral]) up (sampleAt 6))))
    up = minConfidenceFrames /\
  currentHeadPose
    (updateHeadPose (withHistory [neutral; neutral]) up (sampleAt 6))
  = neutral /\
  getCurrentInput
    (updateHeadPose (withHistory [neutral; neutral]) up (sampleAt 6))
  = None.
Proof. repeat split. Qed.

Lemma updateHeadPose_flip_condition_witness :
  weightOf
    (countPoses
       (poseHistory (updateHeadPose (withHistory [neutral]) up (sampleAt 6))))
    up = 2%Z /\
  currentHeadPose (updateHeadPose (withHistory [neutral]) up (sampleAt 6)) = up /\
  currentHeadPose
    (updateHeadPose (withHistory [down; neutral; neutral]) up (sampleAt 6))
  = neutral.
Proof.
  assert (Hup : up <> neutral) by discriminate.
  assert (H1 : (length (poseHistory (withHistory [neutral]))
                <= maxHistoryLength)%nat)
    by (simpl; unfold maxHistoryLength; lia).
  assert (H3 : (length (poseHistory (withHistory [down; neutral; neutral]))
                <= maxHistoryLength)%nat)
    by (simpl; unfold maxHistoryLength; lia).
  destruct (updateHeadPose_flip_condition
              (withHistory [neutral]) up (sampleAt 6) Hup H1)
    as (_ & Hweight & Hflip & _).
  destruct (updateHeadPose_flip_condition
              (withHistory [down; neutral; neutral]) up (sampleAt 6) Hup H3)
    as (_ & _ & _ & Htie).
  split; [ | split ].
  - apply (Hweight [neutral]); [ reflexivity | ].
    intros [Hin | []]. discriminate Hin.
  - apply Hflip. intros l _ H. discriminate H.
  - apply (Htie neutral); [ discriminate | reflexivity ].
Defined.

Lemma processResults_no_face_witness :
  exists t',
    processResults atan2_below round_small activeUp emptyFrame = Some t' /\
    poseHistory t' = poseHistory activeUp /\
    currentHeadPose t' = currentHeadPose activeUp /\
    length (calibrationSamples t') = length (calibrationSamples activeUp) /\
    getCurrentInput t' = getCurrentInput activeUp /\
    t' = activeUp.
Proof.
  apply (processResults_no_face atan2_below round_small activeUp emptyFrame).
  right. reflexivity.
Defined.

Lemma recalibrate_silences_witness :
  getCurrentInput activeUp
  = Some {| Input.up := true; Input.down := false;
            Input.left := false; Input.right := false |} /\
  exists w',
    run atan2_below round_small (mkWorld (recalibrate activeUp) 1)
        [Frame faceFrame; Frame faceFrame; StartCalibrationTimer;
         Frame emptyFrame; Frame faceFrame]
    = Some w' /\
    getCurrentInput (recalibrate activeUp) = None /\
    getCurrentInput (tracker w') = None.
Proof.
  split; [ reflexivity | ].
  eexists. split; [ vm_compute; reflexivity | ].
  match goal with
  | |- _ /\ getCurrentInput (tracker ?w) = None =>
      assert (Hrun : run atan2_below round_small
                       (mkWorld (recalibrate activeUp) 1)
                       [Frame faceFrame; Frame faceFrame; StartCalibrationTimer;
                        Frame emptyFrame; Frame faceFrame]
                     = Some w) by (vm_compute; reflexivity)
  end.
  destruct (recalibrate_silences atan2_below round_small activeUp 1 _ _ Hrun)
    as (_ & Hnow & Hlater & _).
  - left. vm_compute. lia.
  - split; [ exact Hnow | exact Hlater ].
Defined.

Lemma frame_path_never_falls_back_witness :
  (exists t',
      processResults atan2_below round_small (collecting 59 2) faceFrame
      = Some t' /\
      length (calibrationSamples t') = calibrationFrames /\
      textContent (calibrateButton t') = TxtCalibrated) /\
  (exists w',
      run atan2_below round_small (mkWorld (collecting 59 2) 1)
          [Frame emptyFrame; Frame (mkResults None); InitDone; Frame emptyFrame]
      = Some w' /\
      isCalibrated (tracker w') = false).
Proof.
  destruct (frame_path_never_falls_back atan2_below round_small)
    as (Hflip & _ & _ & Hstall).
  split.
  - eexists. split; [ vm_compute; reflexivity | ].
    match goal with
    | |- _ /\ textContent (calibrateButton ?t) = _ =>
        assert (Hres : processResults atan2_below round_small
                         (collecting 59 2) faceFrame = Some t)
          by (vm_compute; reflexivity)
    end.
    destruct (Hflip (collecting 59 2) faceFrame _ eq_refl Hres eq_refl)
      as (Hlen & _ & _ & _ & Hlabel).
    split; [ exact Hlen | exact Hlabel ].
  - eexists. split; [ vm_compute; reflexivity | ].
    match goal with
    | |- isCalibrated (tracker ?w) = false =>
        assert (Hrun : run atan2_below round_small
                         (mkWorld (collecting 59 2) 1)
                         [Frame emptyFrame; Frame (mkResults None); InitDone;
                          Frame emptyFrame]
                       = Some w) by (vm_compute; reflexivity)
    end.
    apply (Hstall (mkWorld (collecting 59 2) 1)
                  [Frame emptyFrame; Frame (mkResults None); InitDone;
                   Frame emptyFrame] _ eq_refl);
      [ vm_compute; lia | reflexivity | exact Hrun ].
Defined.

(** * Further properties *)

(** ** The vote in general *)

Lemma addWeight_keys (counts : Counts) (p : Pose) (w : Z) (k : Pose) :
  In k (map fst (addWeight counts p w)) -> In k (map fst counts) \/ k = p.
Proof.
  induction counts as [|[k0 v0] rest IH]; simpl.
  - intros [H | []]. right. symmetry. exact H.
  - destruct (pose_eqb k0 p); simpl.
    + intros H. left. exact H.
    + intros [H | H]; [ left; left; exact H | ].
      destruct (IH H) as [H' | H']; [ left; right; exact H' | right; exact H' ].
Qed.

Lemma addWeight_NoDup (counts : Counts) (p : Pose) (w : Z) :
  NoDup (map fst counts) -> NoDup (map fst (addWeight counts p w)).
Proof.
  induction counts as [|[k0 v0] rest IH]; simpl; intros Hnd.
  - constructor; [ intros [] | constructor ].
  - destruct (pose_eqb k0 p) eqn:E; simpl; [ exact Hnd | ].
    inversion Hnd as [|? ? Hnotin Hrest]; subst.
    constructor; [ | exact (IH Hrest) ].
    intros Hin. destruct (addWeight_keys rest p w k0 Hin) as [H | H].
    + exact (Hnotin H).
    + subst k0. rewrite pose_eqb_refl in E. discriminate E.
Qed.

Lemma countFrom_NoDup (poses : list Pose) (len index : nat) (counts : Counts) :
  NoDup (map fst counts) ->
  NoDup (map fst (countFrom len index poses counts)).
Proof.
  revert index counts.
  induction poses as [|q rest IH]; intros index counts Hnd; simpl.
  - exact Hnd.
  - apply IH. apply addWeight_NoDup. exact Hnd.
Qed.

Lemma weightOf_In (counts : Counts) (k : Pose) (v : Z) :
  NoDup (map fst counts) -> In (k, v) counts -> weightOf counts k = v.
Proof.
  induction counts as [|[k0 v0] rest IH]; simpl; intros Hnd Hin.
  - destruct Hin.
  - inversion Hnd as [|? ? Hnotin Hrest]; subst.
    destruct Hin as [Heq | Hin].
    + injection Heq as -> ->. rewrite pose_eqb_refl. reflexivity.
    + destruct (pose_eqb k0 k) eqn:E.
      * apply pose_eqb_eq in E. subst k0. exfalso. apply Hnotin.
        change k with (fst (k, v)). apply in_map. exact Hin.
      * exact (IH Hrest Hin).
Qed.

Lemma weightOf_zero_or_In (counts : Counts) (l : Pose) :
  weightOf counts l = 0%Z \/ In (l, weightOf counts l) counts.
Proof.
  induction counts as [|[k0 v0] rest IH]; simpl.
  - left. reflexivity.
  - destruct (pose_eqb k0 l) eqn:E.
    + apply pose_eqb_eq in E. subst k0. right. left. reflexivity.
    + destruct IH as [H | H]; [ left; exact H | right; right; exact H ].
Qed.

(** The first entry after sorting is an entry of [counts] whose weight no
    entry exceeds. *)
Lemma sortEntries_top (entries : Counts) (top : Pose * Z) (rest : Counts) :
  sortEntries entries = top :: rest ->
  In top entries /\ forall e, In e entries -> (snd e <= snd top)%Z.
Proof.
  intros Hsorted.
  destruct (sortEntries_stable_sort entries) as (Hss & Hperm & _).
  rewrite Hsorted in Hss, Hperm.
  split.
  - apply (Permutation_in _ Hperm). left. reflexivity.
  - intros e He.
    apply (Permutation_in _ (Permutation_sym Hperm)) in He.
    destruct He as [<- | He]; [ lia | ].
    inversion Hss as [|? ? _ Hall]; subst.
    rewrite Forall_forall in Hall. exact (Hall e He).
Qed.

Lemma voteFor_nonneg (h : list Pose) (l : Pose) : (0 <= voteFor h l)%Z.
Proof.
  unfold voteFor. destruct (rev h) as [|latest front];
    [ | destruct (pose_eqb l latest) ]; lia.
Qed.

(** What the top entry is, in terms of votes. *)
Lemma top_votes (h : list Pose) (top : Pose * Z) (rest : Counts) :
  sortEntries (countPoses h) = top :: rest ->
  snd top = voteFor h (fst top) /\
  forall l, (voteFor h l <= snd top)%Z.
Proof.
  intros Hsorted.
  destruct (sortEntries_top _ _ _ Hsorted) as [Hin Hmax].
  assert (Hnd : NoDup (map fst (countPoses h)))
    by (apply countFrom_NoDup; constructor).
  assert (Htop : snd top = voteFor h (fst top)).
  { rewrite <- countPoses_voteFor. symmetry.
    apply weightOf_In; [ exact Hnd | ]. destruct top; exact Hin. }
  split; [ exact Htop | ].
  intros l. rewrite <- (countPoses_voteFor h l).
  destruct (weightOf_zero_or_In (countPoses h) l) as [-> | Hl].
  - rewrite Htop. apply voteFor_nonneg.
  - exact (Hmax _ Hl).
Qed.

(** The most recent entry always has a vote of at least 2. *)
Lemma voteFor_latest (older : list Pose) (p : Pose) :
  (2 <= voteFor (older ++ [p]) p)%Z.
Proof.
  rewrite <- countPoses_voteFor, weightOf_latest. lia.
Qed.

Lemma nonempty_latest (h : list Pose) :
  h <> [] -> exists older p, h = older ++ [p].
Proof.
  intros Hne. destruct (exists_last Hne) as (older & p & ->). eauto.
Qed.

(** For a non-empty history, what [getSmoothedPose] computes. *)
Lemma getSmoothedPose_top (t : Tracker) :
  poseHistory t <> [] ->
  exists top rest,
    sortEntries (countPoses (poseHistory t)) = top :: rest /\
    (minConfidenceFrames <= snd top)%Z /\
    getSmoothedPose t = fst top /\
    snd top = voteFor (poseHistory t) (fst top) /\
    forall l, (voteFor (poseHistory t) l <= snd top)%Z.
Proof.
  intros Hne.
  destruct (sortEntries (countPoses (poseHistory t))) as [|top rest] eqn:Hsorted.
  - exfalso. exact (sortedPoses_nonempty _ Hne Hsorted).
  - destruct (top_votes _ _ _ Hsorted) as [Htop Hmax].
    destruct (nonempty_latest _ Hne) as (older & p & Hh).
    assert (Hconf : (minConfidenceFrames <= snd top)%Z).
    { unfold minConfidenceFrames.
      pose proof (voteFor_latest older p) as H2. rewrite <- Hh in H2.
      specialize (Hmax p). lia. }
    exists top, rest. repeat split; try assumption.
    unfold getSmoothedPose. rewrite Hsorted.
    destruct (poseHistory t) as [|p0 h0]; [ congruence | ].
    apply Z.leb_le in Hconf. rewrite Hconf, andb_true_r.
    destruct (pose_eqb (fst top) neutral) eqn:E; simpl; [ | reflexivity ].
    apply pose_eqb_eq in E. symmetry. exact E.
Qed.

(** X1.  For a non-empty history the sorted counts have a first entry, its
    weight is at least [minConfidenceFrames], and [getSmoothedPose] returns
    its label: the confidence test on the top entry never fails, because
    the most recent entry alone weighs 2. *)
Theorem getSmoothedPose_confidence_always_met (t : Tracker) :
  poseHistory t <> [] ->
  exists top rest,
    sortEntries (countPoses (poseHistory t)) = top :: rest /\
    (minConfidenceFrames <=? snd top)%Z = true /\
    getSmoothedPose t = fst top.
Proof.
  intros Hne.
  destruct (getSmoothedPose_top t Hne) as (top & rest & Hs & Hconf & Hout & _).
  exists top, rest. repeat split; try assumption.
  apply Z.leb_le. exact Hconf.
Qed.

(** X2.  For a non-empty history the smoothed pose is a label of maximal
    vote: its vote (one per entry, one more for the latest entry) is at
    least 2 and at least the vote of every label. *)
Theorem getSmoothedPose_maximal_vote (t : Tracker) (l : Pose) :
  poseHistory t <> [] ->
  (2 <= voteFor (poseHistory t) (getSmoothedPose t))%Z /\
  (voteFor (poseHistory t) l <= voteFor (poseHistory t) (getSmoothedPose t))%Z.
Proof.
  intros Hne.
  destruct (getSmoothedPose_top t Hne)
    as (top & rest & _ & Hconf & -> & Htop & Hmax).
  rewrite <- Htop. unfold minConfidenceFrames in Hconf.
  split; [ exact Hconf | exact (Hmax l) ].
Qed.

(** X3.  A label whose vote is strictly above the vote of every other label
    is the smoothed pose, whether it is neutral or not. *)
Theorem getSmoothedPose_strict_winner (t : Tracker) (c : Pose) :
  (forall l, l <> c ->
     (voteFor (poseHistory t) l < voteFor (poseHistory t) c)%Z) ->
  getSmoothedPose t = c.
Proof.
  intros Hwin.
  assert (Hne : poseHistory t <> []).
  { intros Hnil. rewrite Hnil in Hwin.
    destruct c;
      [ specialize (Hwin neutral) | specialize (Hwin neutral)
      | specialize (Hwin up) ];
      unfold voteFor in Hwin; simpl in Hwin;
      assert (0 < 0)%Z by (apply Hwin; discriminate); lia. }
  destruct (getSmoothedPose_top t Hne)
    as (top & rest & _ & _ & Hout & Htop & Hmax).
  rewrite Hout.
  destruct (pose_eqb (fst top) c) eqn:E.
  - apply pose_eqb_eq in E. exact E.
  - assert (Hneq : fst top <> c)
      by (intros Heq; rewrite Heq, pose_eqb_refl in E; discriminate E).
    specialize (Hwin (fst top) Hneq). specialize (Hmax c). lia.
Qed.

Lemma getSmoothedPose_confidence_always_met_witness :
  exists top rest,
    sortEntries (countPoses (poseHistory (withHistory [down; up; neutral])))
    = top :: rest /\
    (minConfidenceFrames <=? snd top)%Z = true /\
    getSmoothedPose (withHistory [down; up; neutral]) = fst top.
Proof.
  apply (getSmoothedPose_confidence_always_met
           (withHistory [down; up; neutral])).
  discriminate.
Defined.

Lemma getSmoothedPose_maximal_vote_witness :
  (2 <= voteFor (poseHistory (withHistory [up; up; neutral]))
          (getSmoothedPose (withHistory [up; up; neutral])))%Z /\
  (voteFor (poseHistory (withHistory [up; up; neutral])) neutral
   <= voteFor (poseHistory (withHistory [up; up; neutral]))
        (getSmoothedPose (withHistory [up; up; neutral])))%Z.
Proof.
  apply (getSmoothedPose_maximal_vote (withHistory [up; up; neutral]) neutral).
  discriminate.
Defined.

Lemma getSmoothedPose_strict_winner_witness :
  getSmoothedPose (withHistory [up; neutral; neutral]) = neutral /\
  getSmoothedPose (withHistory [neutral; down]) = down.
Proof.
  split.
  - apply (getSmoothedPose_strict_winner (withHistory [up; neutral; neutral])).
    intros l Hl. destruct l; try congruence; vm_compute; reflexivity.
  - apply (getSmoothedPose_strict_winner (withHistory [neutral; down])).
    intros l Hl. destruct l; try congruence; vm_compute; reflexivity.
Defined.

(** ** The window as a queue *)

Lemma pushPose_length (h : list Pose) (p : Pose) :
  (length h <= maxHistoryLength)%nat ->
  (length (pushPose h p) <= maxHistoryLength)%nat.
Proof.
  unfold pushPose, maxHistoryLength. intros Hlen.
  rewrite length_app. simpl.
  destruct (Nat.ltb_spec 3 (length h + 1)).
  - destruct h as [|q h]; simpl in *; [ lia | ].
    rewrite length_app. simpl. lia.
  - rewrite length_app. simpl. lia.
Qed.

Lemma pushPose_last3 (h : list Pose) (p : Pose) :
  (length h <= maxHistoryLength)%nat ->
  pushPose h p
  = skipn (length (h ++ [p]) - maxHistoryLength) (h ++ [p]).
Proof.
  unfold maxHistoryLength. intros Hlen.
  destruct h as [|p1 [|p2 [|p3 [|p4 h]]]]; simpl in Hlen; try lia;
    reflexivity.
Qed.

Lemma skipn_skipn_app (n : nat) (l : list Pose) (p : Pose) :
  (0 < n)%nat ->
  skipn (length (skipn (length l - n) l ++ [p]) - n) (skipn (length l - n) l ++ [p])
  = skipn (length (l ++ [p]) - n) (l ++ [p]).
Proof.
  intros Hn. rewrite !length_app, length_skipn. simpl.
  destruct (Nat.le_gt_cases (length l) n) as [Hle | Hgt].
  - replace (length l - n)%nat with 0%nat by lia. simpl.
    rewrite Nat.sub_0_r. reflexivity.
  - replace (length l - (length l - n) + 1 - n)%nat with 1%nat by lia.
    replace (length l + 1 - n)%nat with (S (length l - n)) by lia.
    rewrite skipn_app.
    replace (1 - length (skipn (length l - n) l))%nat with 0%nat
      by (rewrite length_skipn; lia).
    rewrite (skipn_app (S (length l - n)) l).
    replace (S (length l - n) - length l)%nat with 0%nat by lia.
    simpl (skipn 0 _). f_equal.
    rewrite <- (Nat.add_1_l (length l - n)), <- skipn_skipn.
    reflexivity.
Qed.

Lemma pushPose_fold_last_three (commands : list Pose) :
  fold_left pushPose commands []
  = skipn (length commands - maxHistoryLength) commands.
Proof.
  induction commands as [|p commands IH] using rev_ind.
  - reflexivity.
  - rewrite fold_left_app. cbn [fold_left]. rewrite IH.
    rewrite pushPose_last3.
    + apply skipn_skipn_app. unfold maxHistoryLength. lia.
    + rewrite length_skipn. lia.
Qed.

Lemma updateHeadPose_fold_history (commands : list Pose) (t : Tracker)
  (headData : PoseSample) :
  poseHistory (fold_left (fun t c => updateHeadPose t c headData) commands t)
  = fold_left pushPose commands (poseHistory t).
Proof.
  revert t. induction commands as [|c commands IH]; intros t.
  - reflexivity.
  - cbn [fold_left]. rewrite IH. reflexivity.
Qed.

(** X4.  Starting from an empty history, after [updateHeadPose] has taken any
    sequence of raw commands one by one, the window holds exactly the last
    [maxHistoryLength] = 3 of them, oldest first. *)
Theorem poseHistory_is_last_three (t : Tracker) (commands : list Pose)
  (headData : PoseSample) :
  poseHistory t = [] ->
  poseHistory (fold_left (fun t c => updateHeadPose t c headData) commands t)
  = skipn (length commands - maxHistoryLength) commands.
Proof.
  intros Hempty.
  rewrite updateHeadPose_fold_history, Hempty.
  apply pushPose_fold_last_three.
Qed.

Lemma poseHistory_is_last_three_witness :
  poseHistory
    (fold_left (fun t c => updateHeadPose t c (sampleAt 0))
               [up; up; neutral; down; neutral] activeDefault)
  = [neutral; down; neutral].
Proof.
  apply (poseHistory_is_last_three activeDefault
           [up; up; neutral; down; neutral] (sampleAt 0)).
  reflexivity.
Defined.

(** ** Engaging and releasing a command *)

(** X5.  Whatever the window held (at most 3 entries), two consecutive
    frames with the same raw command, neutral or not, make that command the
    current pose. *)
Theorem two_equal_frames_decide (t : Tracker) (c : Pose)
  (headData1 headData2 : PoseSample) :
  (length (poseHistory t) <= maxHistoryLength)%nat ->
  currentHeadPose
    (updateHeadPose (updateHeadPose t c headData1) c headData2) = c.
Proof.
  unfold maxHistoryLength. intros Hlen.
  destruct t as [ini cur h cal np cs ut dt btn]. simpl in Hlen.
  destruct h as [|p1 [|p2 [|p3 [|p4 h]]]]; simpl in Hlen; try lia;
    destruct c;
    repeat match goal with p : Pose |- _ => destruct p end;
    reflexivity.
Qed.

(** X6.  A command held by two consecutive frames survives one neutral
    frame and is released by the second neutral frame. *)
Theorem held_command_release (t : Tracker) (older : list Pose) (c : Pose)
  (headData1 headData2 : PoseSample) :
  c <> neutral ->
  (length (poseHistory t) <= maxHistoryLength)%nat ->
  poseHistory t = older ++ [c; c] ->
  currentHeadPose (updateHeadPose t neutral headData1) = c /\
  currentHeadPose
    (updateHeadPose (updateHeadPose t neutral headData1) neutral headData2)
  = neutral.
Proof.
  unfold maxHistoryLength. intros Hc Hlen Hh.
  destruct t as [ini cur h cal np cs ut dt btn]. simpl in Hlen, Hh. subst h.
  rewrite length_app in Hlen. simpl in Hlen.
  destruct older as [|o [|o' older]]; simpl in Hlen; try lia;
    destruct c; try congruence;
    repeat match goal with p : Pose |- _ => destruct p end;
    split; reflexivity.
Qed.

Lemma two_equal_frames_decide_witness :
  currentHeadPose
    (updateHeadPose
       (updateHeadPose (withHistory [up; up; up]) down (sampleAt (-6)))
       down (sampleAt (-7)))
  = down.
Proof.
  apply (two_equal_frames_decide (withHistory [up; up; up]) down).
  simpl. unfold maxHistoryLength. lia.
Defined.

Lemma held_command_release_witness :
  currentHeadPose
    (updateHeadPose (withHistory [neutral; up; up]) neutral (sampleAt 0)) = up /\
  currentHeadPose
    (updateHeadPose
       (updateHeadPose (withHistory [neutral; up; up]) neutral (sampleAt 0))
       neutral (sampleAt 0))
  = neutral.
Proof.
  apply (held_command_release (withHistory [neutral; up; up]) [neutral] up).
  - discriminate.
  - simpl. unfold maxHistoryLength. lia.
  - reflexivity.
Defined.

(** ** Values that are not finite numbers *)

Lemma SFcompare_refl (a : spec_float) :
  a <> S754_nan -> SFcompare a a = Some Eq.
Proof.
  destruct a as [[]|[]| |[] m e]; simpl; try congruence; intros _;
    rewrite Z.compare_refl, Pos.compare_cont_refl; reflexivity.
Qed.

Lemma is_nan_SF (x : float) :
  is_nan x = true <-> Prim2SF x = S754_nan.
Proof.
  unfold is_nan. rewrite FloatAxioms.eqb_spec. unfold SFeqb. split.
  - destruct (Prim2SF x) as [[]|[]| |[] m e] eqn:E; try reflexivity;
      rewrite SFcompare_refl; simpl; congruence.
  - intros ->. reflexivity.
Qed.

Lemma is_finite_SF (x : float) :
  is_finite x = false <-> nonFiniteSF (Prim2SF x) = true.
Proof.
  unfold is_finite, is_infinity, is_nan.
  rewrite !FloatAxioms.eqb_spec, FloatAxioms.abs_spec.
  change (Prim2SF infinity) with (S754_infinity false).
  unfold SFeqb.
  destruct (Prim2SF x) as [[]|[]| |[] m e]; simpl;
    try rewrite Z.compare_refl, Pos.compare_cont_refl; simpl;
    split; congruence.
Qed.

Lemma ltb_nan_l (x y : float) : Prim2SF x = S754_nan -> (x <? y) = false.
Proof.
  intros H. rewrite FloatAxioms.ltb_spec, H. reflexivity.
Qed.

Lemma ltb_nan_r (x y : float) : Prim2SF y = S754_nan -> (x <? y) = false.
Proof.
  intros H. rewrite FloatAxioms.ltb_spec, H. unfold SFltb.
  destruct (Prim2SF x); reflexivity.
Qed.

(** Nothing lies above plus infinity. *)
Lemma ltb_above_infinity (x y : float) :
  Prim2SF x = S754_infinity false -> (x <? y) = false.
Proof.
  intros H. rewrite FloatAxioms.ltb_spec, H. unfold SFltb.
  destruct (Prim2SF y) as [[]|[]| |[] m e]; reflexivity.
Qed.

(** Nothing lies below minus infinity. *)
Lemma ltb_below_neg_infinity (x y : float) :
  Prim2SF y = S754_infinity true -> (x <? y) = false.
Proof.
  intros H. rewrite FloatAxioms.ltb_spec, H. unfold SFltb.
  destruct (Prim2SF x) as [[]|[]| |[] m e]; reflexivity.
Qed.

Lemma add_nonfinite_l (x y : float) :
  nonFiniteSF (Prim2SF x) = true -> nonFiniteSF (Prim2SF (x + y)) = true.
Proof.
  rewrite FloatAxioms.add_spec. unfold SF64add.
  destruct (Prim2SF x) as [[]|[]| |[] mx ex]; simpl; try discriminate;
    destruct (Prim2SF y) as [[]|[]| |[] my ey]; reflexivity.
Qed.

Lemma add_nonfinite_r (x y : float) :
  nonFiniteSF (Prim2SF y) = true -> nonFiniteSF (Prim2SF (x + y)) = true.
Proof.
  rewrite FloatAxioms.add_spec. unfold SF64add.
  destruct (Prim2SF y) as [[]|[]| |[] my ey]; simpl; try discriminate;
    destruct (Prim2SF x) as [[]|[]| |[] mx ex]; reflexivity.
Qed.

Lemma div_nonfinite_l (x y : float) :
  nonFiniteSF (Prim2SF x) = true -> nonFiniteSF (Prim2SF (x / y)) = true.
Proof.
  rewrite FloatAxioms.div_spec. unfold SF64div.
  destruct (Prim2SF x) as [[]|[]| |[] mx ex]; simpl; try discriminate;
    destruct (Prim2SF y) as [[]|[]| |[] my ey]; reflexivity.
Qed.

Lemma div_by_zero (x y : float) :
  (y =? 0) = true -> nonFiniteSF (Prim2SF (x / y)) = true.
Proof.
  rewrite FloatAxioms.eqb_spec, FloatAxioms.div_spec.
  change (Prim2SF 0) with (S754_zero false). unfold SFeqb, SF64div.
  destruct (Prim2SF y) as [[]|[]| |[] my ey]; simpl; try discriminate;
    destruct (Prim2SF x) as [[]|[]| |[] mx ex]; reflexivity.
Qed.

(** Multiplying by a finite number other than zero. *)
Lemma mul_nonfinite_l (x y : float) :
  finiteNonzeroSF (Prim2SF y) = true ->
  nonFiniteSF (Prim2SF x) = true -> nonFiniteSF (Prim2SF (x * y)) = true.
Proof.
  rewrite FloatAxioms.mul_spec. unfold SF64mul.
  destruct (Prim2SF y) as [[]|[]| |[] my ey]; simpl; try discriminate;
    intros _;
    destruct (Prim2SF x) as [[]|[]| |[] mx ex]; simpl; try discriminate;
    reflexivity.
Qed.

(** Adding or subtracting a finite number leaves NaN and the infinities as
    they are. *)
Lemma shift_nonfinite (x y : float) :
  finiteNonzeroSF (Prim2SF y) = true ->
  nonFiniteSF (Prim2SF x) = true ->
  Prim2SF (x - y) = Prim2SF x /\ Prim2SF (x + y) = Prim2SF x.
Proof.
  rewrite FloatAxioms.sub_spec, FloatAxioms.add_spec.
  unfold SF64sub, SF64add.
  destruct (Prim2SF y) as [[]|[]| |[] my ey]; simpl; try discriminate;
    intros _;
    destruct (Prim2SF x) as [[]|[]| |[] mx ex]; simpl; try discriminate;
    split; reflexivity.
Qed.

Lemma sum_nonfinite (samples : list PoseSample) (sum : float) :
  nonFiniteSF (Prim2SF sum) = true
  \/ (exists s, In s samples /\ nonFiniteSF (Prim2SF (pitch s)) = true) ->
  nonFiniteSF
    (Prim2SF (fold_left (fun sum sample => sum + pitch sample) samples sum))
  = true.
Proof.
  revert sum. induction samples as [|s0 samples IH]; intros sum H.
  - destruct H as [H | (s & [] & _)]. exact H.
  - cbn [fold_left]. apply IH.
    destruct H as [H | (s & [<- | Hin] & Hs)].
    + left. apply add_nonfinite_l. exact H.
    + left. apply add_nonfinite_r. exact Hs.
    + right. exists s. split; assumption.
Qed.

(** X7.  A sample whose pitch is NaN classifies as [neutral], whatever the
    thresholds and the calibration state. *)
Theorem nan_pitch_is_neutral (t : Tracker) (headData : PoseSample) :
  is_nan (pitch headData) = true ->
  determineHeadPose t headData = neutral.
Proof.
  intros Hnan. apply is_nan_SF in Hnan. unfold determineHeadPose.
  rewrite (ltb_nan_l _ _ Hnan), (ltb_nan_r _ _ Hnan).
  destruct (isCalibrated t); reflexivity.
Qed.

Lemma nan_pitch_is_neutral_witness :
  determineHeadPose activeDefault (sampleAt nan) = neutral.
Proof.
  apply (nan_pitch_is_neutral activeDefault (sampleAt nan)). reflexivity.
Defined.

(** X8.  When one calibration sample has a pitch that is NaN or infinite,
    a calibration over more than 10 samples stores a neutral pitch and
    thresholds that are not finite either, and one of the two commands can
    no longer be produced: either no sample classifies as [up], or no
    sample classifies as [down]. *)
Theorem poisoned_calibration (t : Tracker) (s : PoseSample) :
  (10 < length (calibrationSamples t))%nat ->
  In s (calibrationSamples t) ->
  is_finite (pitch s) = false ->
  is_finite (upThreshold (finishCalibration t)) = false /\
  is_finite (downThreshold (finishCalibration t)) = false /\
  ((forall headData, determineHeadPose (finishCalibration t) headData <> up)
   \/ (forall headData,
         determineHeadPose (finishCalibration t) headData <> down)).
Proof.
  intros Hlen Hin Hs. apply is_finite_SF in Hs.
  rewrite (finishCalibration_enough t Hlen).
  cbn [upThreshold downThreshold].
  assert (Havg : nonFiniteSF (Prim2SF (avgPitch (calibrationSamples t))) = true).
  { unfold avgPitch. apply div_nonfinite_l, sum_nonfinite.
    right. exists s. split; assumption. }
  destruct (shift_nonfinite (avgPitch (calibrationSamples t)) 5
              eq_refl Havg) as [Hup Hdown].
  split; [ apply is_finite_SF; rewrite Hup; exact Havg | ].
  split; [ apply is_finite_SF; rewrite Hdown; exact Havg | ].
  unfold determineHeadPose. cbn [isCalibrated negb upThreshold downThreshold].
  destruct (Prim2SF (avgPitch (calibrationSamples t))) as [|[]| |] eqn:E;
    try discriminate Havg.
  - right. intros headData.
    rewrite (ltb_below_neg_infinity (pitch headData) _ Hup).
    destruct (_ <? pitch headData); discriminate.
  - left. intros headData.
    rewrite (ltb_above_infinity _ (pitch headData) Hdown).
    destruct (pitch headData <? _); discriminate.
  - left. intros headData.
    rewrite (ltb_nan_l _ (pitch headData) Hdown),
            (ltb_nan_r (pitch headData) _ Hup).
    discriminate.
Qed.

Lemma poisoned_calibration_witness :
  is_finite
    (upThreshold
       (finishCalibration
          (set_samples activeDefault
             (sampleAt infinity :: repeat (sampleAt 2) 10)))) = false /\
  is_finite
    (downThreshold
       (finishCalibration
          (set_samples activeDefault
             (sampleAt infinity :: repeat (sampleAt 2) 10)))) = false /\
  ((forall headData,
       determineHeadPose
         (finishCalibration
            (set_samples activeDefault
               (sampleAt infinity :: repeat (sampleAt 2) 10))) headData
       <> up)
   \/ (forall headData,
         determineHeadPose
           (finishCalibration
              (set_samples activeDefault
                 (sampleAt infinity :: repeat (sampleAt 2) 10))) headData
         <> down)).
Proof.
  apply (poisoned_calibration
           (set_samples activeDefault
              (sampleAt infinity :: repeat (sampleAt 2) 10))
           (sampleAt infinity)).
  - simpl. lia.
  - left. reflexivity.
  - reflexivity.
Defined.

(** ** Single frames *)

Section FrameCases.

Variable atan2 : float -> float -> float.
Variable round : float -> float.

Lemma calculateHeadPose_short (landmarks : list Landmark.t) :
  (length landmarks < 363)%nat -> calculateHeadPose atan2 landmarks = None.
Proof.
  intros Hlen. unfold calculateHeadPose.
  assert (H362 : nth_error landmarks 362 = None)
    by (apply nth_error_None; lia).
  rewrite H362.
  destruct (nth_error landmarks 1);
    destruct (match nth_error landmarks 175 with
              | Some c => Some c
              | None => nth_error landmarks 18
              end);
    destruct (nth_error landmarks 33); reflexivity.
Qed.

Lemma nth_error_within (landmarks : list Landmark.t) (i : nat) :
  (i < length landmarks)%nat -> exists p, nth_error landmarks i = Some p.
Proof.
  intros Hlt. destruct (nth_error landmarks i) as [p|] eqn:E.
  - exists p. reflexivity.
  - apply nth_error_None in E. lia.
Qed.

Lemma calculateHeadPose_long (landmarks : list Landmark.t) :
  (363 <= length landmarks)%nat ->
  exists headData, calculateHeadPose atan2 landmarks = Some headData.
Proof.
  intros Hlen. unfold calculateHeadPose.
  destruct (nth_error_within landmarks 1 ltac:(lia)) as [p1 ->].
  destruct (nth_error_within landmarks 175 ltac:(lia)) as [p175 ->].
  destruct (nth_error_within landmarks 33 ltac:(lia)) as [p33 ->].
  destruct (nth_error_within landmarks 362 ltac:(lia)) as [p362 ->].
  destruct (nth_error_within landmarks 10 ltac:(lia)) as [p10 ->].
  eexists. reflexivity.
Qed.

Lemma processResults_face_active (t : Tracker) (landmarks : list Landmark.t)
  (others : list (list Landmark.t)) (headData : PoseSample) :
  isCalibrated t = true ->
  calculateHeadPose atan2 landmarks = Some headData ->
  processResults atan2 round t (mkResults (Some (landmarks :: others)))
  = Some (updateHeadPose t (determineHeadPose t headData) headData).
Proof.
  intros Hcal Hhd. unfold processResults. cbn [multiFaceLandmarks].
  rewrite Hhd, Hcal. reflexivity.
Qed.


Lemma processResults_face_full (t : Tracker) (landmarks : list Landmark.t)
  (others : list (list Landmark.t)) :
  isCalibrated t = false ->
  (calibrationFrames <= length (calibrationSamples t))%nat ->
  processResults atan2 round t (mkResults (Some (landmarks :: others)))
  = Some t
  \/ processResults atan2 round t (mkResults (Some (landmarks :: others)))
     = None.
Proof.
  intros Hcal Hlen. unfold processResults. cbn [multiFaceLandmarks].
  destruct (calculateHeadPose atan2 landmarks); [ left | right; reflexivity ].
  rewrite Hcal. cbn [negb].
  destruct (Nat.ltb_spec (length (calibrationSamples t)) calibrationFrames);
    [ lia | reflexivity ].
Qed.

(** X9.  [calculateHeadPose] raises exactly when the landmark array has
    fewer than 363 entries (landmark 362 is the highest it reads; the
    fallback from landmark 175 to landmark 18 is then never taken).  A frame
    with such a face makes [processResults] raise before it writes any
    field, so the tracker is as before. *)
Theorem short_landmark_array_raises (landmarks : list Landmark.t) :
  (calculateHeadPose atan2 landmarks = None
   <-> (length landmarks < 363)%nat) /\
  (calculateHeadPose atan2 landmarks <> None ->
   nth_error landmarks 175 <> None) /\
  (forall w others,
      (length landmarks < 363)%nat ->
      processResults atan2 round (tracker w)
        (mkResults (Some (landmarks :: others))) = None /\
      step atan2 round w (Frame (mkResults (Some (landmarks :: others))))
      = Some w).
Proof.
  split.
  - split.
    + intros Hnone.
      destruct (Nat.lt_ge_cases (length landmarks) 363) as [Hlt | Hge];
        [ exact Hlt | ].
      destruct (calculateHeadPose_long landmarks Hge) as [hd Hhd].
      congruence.
    + apply calculateHeadPose_short.
  - split.
    + intros Hsome Hnone. apply nth_error_None in Hnone.
      apply Hsome, calculateHeadPose_short. lia.
    + intros w others Hlt.
      assert (Hraise : processResults atan2 round (tracker w)
                         (mkResults (Some (landmarks :: others))) = None).
      { unfold processResults. cbn [multiFaceLandmarks].
        rewrite (calculateHeadPose_short landmarks Hlt). reflexivity. }
      split; [ exact Hraise | ].
      cbn [step]. rewrite Hraise. reflexivity.
Qed.

(** X10.  When the chin (landmark 175) and the forehead (landmark 10) lie at
    the same height, so that [faceHeight] is 0, the pitch that
    [calculateHeadPose] returns is NaN or infinite, whatever the other
    landmarks and whatever [Math.atan2] returns. *)
Theorem flat_face_pitch_not_finite (landmarks : list Landmark.t)
  (chin forehead : Landmark.t) (headData : PoseSample) :
  nth_error landmarks 175 = Some chin ->
  nth_error landmarks 10 = Some forehead ->
  (abs (Landmark.y chin - Landmark.y forehead) =? 0) = true ->
  calculateHeadPose atan2 landmarks = Some headData ->
  is_finite (pitch headData) = false.
Proof.
  intros Hchin Hforehead Hflat Hhd. unfold calculateHeadPose in Hhd.
  rewrite Hchin, Hforehead in Hhd.
  destruct (nth_error landmarks 1) as [noseTip|]; [ | discriminate Hhd ].
  destruct (nth_error landmarks 33) as [leftEye|]; [ | discriminate Hhd ].
  destruct (nth_error landmarks 362) as [rightEye|]; [ | discriminate Hhd ].
  injection Hhd as <-. cbn [pitch].
  apply is_finite_SF, add_nonfinite_l.
  apply mul_nonfinite_l; [ reflexivity | ].
  apply mul_nonfinite_l; [ reflexivity | ].
  apply div_by_zero. exact Hflat.
Qed.

(** X11.  For an active tracker with an empty window and a well-formed face,
    one frame decides: the window becomes the single raw command of that
    frame, which is also the current pose; a pitch below [upThreshold] makes
    [getCurrentInput] report [down] at once. *)
Theorem first_frame_decides (t : Tracker) (landmarks : list Landmark.t)
  (others : list (list Landmark.t)) (headData : PoseSample) :
  isInitialized t = true ->
  isCalibrated t = true ->
  poseHistory t = [] ->
  calculateHeadPose atan2 landmarks = Some headData ->
  exists t',
    processResults atan2 round t (mkResults (Some (landmarks :: others)))
    = Some t' /\
    poseHistory t' = [determineHeadPose t headData] /\
    currentHeadPose t' = determineHeadPose t headData /\
    ((pitch headData <? upThreshold t) = true ->
     getCurrentInput t'
     = Some {| Input.up := false; Input.down := true;
               Input.left := false; Input.right := false |}).
Proof.
  intros Hinit Hcal Hempty Hhd.
  exists (updateHeadPose t (determineHeadPose t headData) headData).
  split; [ apply processResults_face_active; assumption | ].
  unfold updateHeadPose, getCurrentInput, getSmoothedPose.
  cbn [set_currentHeadPose set_history poseHistory currentHeadPose
       isInitialized isCalibrated].
  rewrite Hempty, Hinit, Hcal.
  split; [ reflexivity | ].
  split.
  - destruct (determineHeadPose t headData); reflexivity.
  - intros Hbelow. unfold determineHeadPose. rewrite Hcal, Hbelow.
    reflexivity.
Qed.

End FrameCases.

Lemma flat_face_pitch_not_finite_witness :
  exists headData,
    calculateHeadPose atan2_below flatFace = Some headData /\
    is_finite (pitch headData) = false.
Proof.
  eexists. split; [ vm_compute; reflexivity | ].
  apply (flat_face_pitch_not_finite atan2_below flatFace
           (Landmark.mk 0.5 0.5) (Landmark.mk 0.5 0.5));
    vm_compute; reflexivity.
Defined.

Lemma first_frame_decides_witness :
  exists t',
    processResults atan2_below round_small activeDefault faceFrame = Some t' /\
    poseHistory t' = [down] /\
    currentHeadPose t' = down /\
    getCurrentInput t'
    = Some {| Input.up := false; Input.down := true;
              Input.left := false; Input.right := false |}.
Proof.
  destruct (calculateHeadPose atan2_below uprightFace) as [headData|] eqn:Hhd;
    [ | vm_compute in Hhd; discriminate Hhd ].
  assert (Hpitch : (pitch headData <? upThreshold activeDefault) = true).
  { vm_compute in Hhd. injection Hhd as <-. reflexivity. }
  assert (Hpose : determineHeadPose activeDefault headData = down).
  { unfold determineHeadPose. rewrite Hpitch. reflexivity. }
  destruct (first_frame_decides atan2_below round_small activeDefault
              uprightFace [] headData eq_refl eq_refl eq_refl Hhd)
    as (t' & Hres & Hhist & Hcur & Hinput).
  exists t'. rewrite Hpose in Hhist, Hcur.
  split; [ exact Hres | ].
  split; [ exact Hhist | ].
  split; [ exact Hcur | exact (Hinput Hpitch) ].
Defined.

(** ** Runs of frames, timers and clicks *)

Section RunProperties.

Variable atan2 : float -> float -> float.
Variable round : float -> float.


Lemma run_invariant (P : World -> Prop) (allowed : Event -> bool) :
  (forall w e w',
      P w -> allowed e = true -> step atan2 round w e = Some w' -> P w') ->
  forall events w w',
    P w -> forallb allowed events = true ->
    run atan2 round w events = Some w' -> P w'.
Proof.
  intros Hstep events.
  induction events as [|e events IH]; intros w w' HP Hall Hrun.
  - injection Hrun as <-. exact HP.
  - simpl in Hrun, Hall. apply andb_true_iff in Hall as [He Hall].
    destruct (step atan2 round w e) as [w1|] eqn:E; [ | discriminate Hrun ].
    exact (IH w1 w' (Hstep w e w1 HP He E) Hall Hrun).
Qed.

Lemma forallb_always (events : list Event) :
  forallb (fun _ => true) events = true.
Proof. induction events; simpl; auto. Qed.

Lemma updateCalibrationUI_keeps (t : Tracker) (progress : nat) :
  isInitialized (updateCalibrationUI round t progress) = isInitialized t /\
  poseHistory (updateCalibrationUI round t progress) = poseHistory t /\
  currentHeadPose (updateCalibrationUI round t progress) = currentHeadPose t.
Proof.
  unfold updateCalibrationUI, finishCalibration.
  destruct (calibrationFrames <=? progress)%nat;
    [ destruct (10 <? _)%nat | ]; repeat split.
Qed.

(** What one event does to the window and the current pose. *)
Lemma step_window (w w' : World) (e : Event) :
  step atan2 round w e = Some w' ->
  (poseHistory (tracker w') = poseHistory (tracker w) /\
   currentHeadPose (tracker w') = currentHeadPose (tracker w))
  \/ (poseHistory (tracker w') = [] /\ currentHeadPose (tracker w') = neutral)
  \/ (isCalibrated (tracker w) = true /\
      exists p,
        poseHistory (tracker w') = pushPose (poseHistory (tracker w)) p /\
        currentHeadPose (tracker w') = getSmoothedPose (tracker w')).
Proof.
  intros Hstep. destruct w as [t n].
  destruct e as [ | [[[|landmarks others]|]] | | | ]; cbn [step tracker] in *.
  - injection Hstep as <-. left. split; reflexivity.
  - injection Hstep as <-. left. split; reflexivity.
  - unfold processResults in Hstep. cbn [multiFaceLandmarks] in Hstep.
    destruct (calculateHeadPose atan2 landmarks) as [headData|];
      [ | injection Hstep as <-; left; split; reflexivity ].
    destruct (isCalibrated t) eqn:Hcal; cbn [negb] in Hstep.
    + injection Hstep as <-. right. right. split; [ reflexivity | ].
      exists (determineHeadPose t headData). split; reflexivity.
    + destruct (length (calibrationSamples t) <? calibrationFrames)%nat;
        injection Hstep as <-; left; [ | split; reflexivity ].
      cbn [tracker].
      match goal with
      | |- context [updateCalibrationUI round ?a ?b] =>
          destruct (updateCalibrationUI_keeps a b) as (_ & -> & ->)
      end.
      split; reflexivity.
  - injection Hstep as <-. left. split; reflexivity.
  - destruct n as [|n]; [ discriminate Hstep | ].
    injection Hstep as <-. left. cbn [tracker]. unfold startCalibration.
    destruct (updateCalibrationUI_keeps (set_samples t []) 0)
      as (_ & -> & ->).
    split; reflexivity.
  - injection Hstep as <-. right. left. split; reflexivity.
  - injection Hstep as <-. left. split; reflexivity.
Qed.

Lemma getSmoothedPose_window (t1 t2 : Tracker) :
  poseHistory t1 = poseHistory t2 -> getSmoothedPose t1 = getSmoothedPose t2.
Proof.
  intros H. unfold getSmoothedPose. rewrite H. reflexivity.
Qed.

(** X12.  In every state that a run of events reaches from the freshly
    constructed tracker, the window holds at most [maxHistoryLength] = 3
    entries and [currentHeadPose] is the smoothed pose of the window. *)
Theorem reachable_window_invariant (pending : nat) (events : list Event)
  (w' : World) :
  run atan2 round (mkWorld constructor pending) events = Some w' ->
  (length (poseHistory (tracker w')) <= maxHistoryLength)%nat /\
  currentHeadPose (tracker w') = getSmoothedPose (tracker w').
Proof.
  intros Hrun.
  apply (run_invariant
           (fun w =>
              (length (poseHistory (tracker w)) <= maxHistoryLength)%nat /\
              currentHeadPose (tracker w) = getSmoothedPose (tracker w))
           (fun _ => true))
    with (events := events) (w := mkWorld constructor pending);
    [ | split; [ simpl; unfold maxHistoryLength; lia | reflexivity ]
      | apply forallb_always | exact Hrun ].
  intros w e w1 [Hlen Hcur] _ Hstep.
  destruct (step_window w w1 e Hstep)
    as [[Hh Hc] | [[Hh Hc] | (_ & p & Hh & Hc)]].
  - rewrite Hh, Hc. split; [ exact Hlen | ].
    rewrite Hcur. apply getSmoothedPose_window. symmetry. exact Hh.
  - rewrite Hh, Hc. split; [ simpl; lia | ].
    unfold getSmoothedPose. rewrite Hh. reflexivity.
  - rewrite Hh. split; [ apply pushPose_length; exact Hlen | exact Hc ].
Qed.

Lemma step_initialized (w w' : World) (e : Event) :
  isInitialized (tracker w) = false ->
  isInitDone e = false ->
  step atan2 round w e = Some w' ->
  isInitialized (tracker w') = false.
Proof.
  intros Hinit He Hstep. destruct w as [t n].
  destruct e as [ | [[[|landmarks others]|]] | | | ];
    cbn [step tracker isInitDone] in *; try discriminate He;
    try (injection Hstep as <-; cbn [tracker]; first [ assumption | reflexivity ]).
  - unfold processResults in Hstep. cbn [multiFaceLandmarks] in Hstep.
    destruct (calculateHeadPose atan2 landmarks) as [headData|];
      [ | injection Hstep as <-; assumption ].
    destruct (isCalibrated t); cbn [negb] in Hstep.
    + injection Hstep as <-. exact Hinit.
    + destruct (length (calibrationSamples t) <? calibrationFrames)%nat;
        injection Hstep as <-; [ | exact Hinit ].
      cbn [tracker].
      match goal with
      | |- context [updateCalibrationUI round ?a ?b] =>
          destruct (updateCalibrationUI_keeps a b) as (-> & _)
      end.
      exact Hinit.
  - destruct n as [|n]; [ discriminate Hstep | ].
    injection Hstep as <-. cbn [tracker]. unfold startCalibration.
    destruct (updateCalibrationUI_keeps (set_samples t []) 0) as (-> & _).
    exact Hinit.
Qed.

(** X13.  While [init] has not completed, or after [stopHeadTracking], the
    tracker is not initialised, and it stays so over any run of frames,
    timers and clicks: [getCurrentInput] returns [null] whatever has been
    calibrated in between. *)
Theorem uninitialised_is_silent (w w' : World) (events : list Event) :
  isInitialized (tracker w) = false ->
  forallb (fun e => negb (isInitDone e)) events = true ->
  run atan2 round w events = Some w' ->
  isInitialized (tracker w') = false /\ getCurrentInput (tracker w') = None.
Proof.
  intros Hinit Hno Hrun.
  assert (H : isInitialized (tracker w') = false).
  { apply (run_invariant (fun w => isInitialized (tracker w) = false)
                         (fun e => negb (isInitDone e)))
      with (events := events) (w := w); try assumption.
    intros w0 e w1 H0 He Hstep.
    apply (step_initialized w0 w1 e H0); [ | exact Hstep ].
    destruct (isInitDone e); [ discriminate He | reflexivity ]. }
  split; [ exact H | ].
  unfold getCurrentInput. rewrite H. reflexivity.
Qed.

Lemma updateCalibrationUI_below_thresholds (t : Tracker) (progress : nat) :
  (progress < calibrationFrames)%nat ->
  upThreshold (updateCalibrationUI round t progress) = upThreshold t /\
  downThreshold (updateCalibrationUI round t progress) = downThreshold t /\
  neutralPosition (updateCalibrationUI round t progress) = neutralPosition t /\
  isCalibrated (updateCalibrationUI round t progress) = isCalibrated t.
Proof.
  intros H. unfold updateCalibrationUI.
  destruct (Nat.leb_spec calibrationFrames progress); [ lia | ].
  repeat split.
Qed.

Lemma step_frozen (w w' : World) (e : Event) :
  isCalibrated (tracker w) = true ->
  isClick e = false ->
  step atan2 round w e = Some w' ->
  isCalibrated (tracker w') = true /\
  upThreshold (tracker w') = upThreshold (tracker w) /\
  downThreshold (tracker w') = downThreshold (tracker w) /\
  neutralPosition (tracker w') = neutralPosition (tracker w).
Proof.
  intros Hcal He Hstep. destruct w as [t n].
  destruct e as [ | [[[|landmarks others]|]] | | | ];
    cbn [step tracker isClick] in *; try discriminate He;
    try (injection Hstep as <-; cbn [tracker]; repeat split; assumption).
  - unfold processResults in Hstep. cbn [multiFaceLandmarks] in Hstep.
    destruct (calculateHeadPose atan2 landmarks) as [headData|];
      [ | injection Hstep as <-; repeat split; assumption ].
    rewrite Hcal in Hstep. cbn [negb] in Hstep.
    injection Hstep as <-. repeat split. exact Hcal.
  - destruct n as [|n]; [ discriminate Hstep | ].
    injection Hstep as <-. cbn [tracker]. unfold startCalibration.
    destruct (updateCalibrationUI_below_thresholds (set_samples t []) 0)
      as (-> & -> & -> & ->); [ unfold calibrationFrames; lia | ].
    repeat split. exact Hcal.
Qed.

(** X14.  Once a tracker is calibrated, frames, timers and the end of [init]
    leave it calibrated with the same neutral pitch and thresholds: only a
    click on the calibrate or stop button ends a calibration. *)
Theorem calibration_is_frozen (w w' : World) (events : list Event) :
  isCalibrated (tracker w) = true ->
  forallb (fun e => negb (isClick e)) events = true ->
  run atan2 round w events = Some w' ->
  isCalibrated (tracker w') = true /\
  upThreshold (tracker w') = upThreshold (tracker w) /\
  downThreshold (tracker w') = downThreshold (tracker w) /\
  neutralPosition (tracker w') = neutralPosition (tracker w).
Proof.
  intros Hcal Hno Hrun.
  apply (run_invariant
           (fun w0 =>
              isCalibrated (tracker w0) = true /\
              upThreshold (tracker w0) = upThreshold (tracker w) /\
              downThreshold (tracker w0) = downThreshold (tracker w) /\
              neutralPosition (tracker w0) = neutralPosition (tracker w))
           (fun e => negb (isClick e)))
    with (events := events) (w := w); try assumption;
    [ | repeat split; exact Hcal ].
  intros w0 e w1 (H0 & Hu & Hd & Hn) He Hstep.
  destruct (step_frozen w0 w1 e H0) as (H1 & Hu1 & Hd1 & Hn1);
    [ destruct (isClick e); [ discriminate He | reflexivity ] | exact Hstep | ].
  rewrite Hu1, Hd1, Hn1. repeat split; assumption.
Qed.

(** X15.  While a tracker is not calibrated, frames do not reach the
    stabilizer: starting uncalibrated with an empty window and a neutral
    pose (as after [recalibrate]), the window stays empty and the pose
    neutral for as long as fewer than [calibrationFrames] frames with a face
    have been processed. *)
Theorem uncalibrated_window_stays_empty (w w' : World) (events : list Event) :
  isCalibrated (tracker w) = false ->
  poseHistory (tracker w) = [] ->
  currentHeadPose (tracker w) = neutral ->
  (length (calibrationSamples (tracker w)) + faces events
   < calibrationFrames)%nat ->
  run atan2 round w events = Some w' ->
  isCalibrated (tracker w') = false /\
  poseHistory (tracker w') = [] /\
  currentHeadPose (tracker w') = neutral.
Proof.
  revert w. induction events as [|e events IH];
    intros w Hcal Hh Hc Hbudget Hrun.
  - injection Hrun as <-. repeat split; assumption.
  - simpl in Hrun. rewrite faces_cons in Hbudget.
    destruct (step atan2 round w e) as [w1|] eqn:Hstep; [ | discriminate Hrun ].
    destruct (step_uncalibrated atan2 round w w1 e Hcal ltac:(lia) Hstep)
      as [Hcal1 Hlen1].
    apply (IH w1); try assumption; try lia.
    + destruct (step_window w w1 e Hstep)
        as [[Hh1 _] | [[Hh1 _] | (Hcontra & _)]];
        [ rewrite Hh1; exact Hh | exact Hh1 | congruence ].
    + destruct (step_window w w1 e Hstep)
        as [[_ Hc1] | [[_ Hc1] | (Hcontra & _)]];
        [ rewrite Hc1; exact Hc | exact Hc1 | congruence ].
Qed.



Lemma step_frame_full (t : Tracker) (pending : nat) (results : Results) :
  isCalibrated t = false ->
  (calibrationFrames <= length (calibrationSamples t))%nat ->
  step atan2 round (mkWorld t pending) (Frame results)
  = Some (mkWorld t pending).
Proof.
  intros Hcal Hlen. cbn [step tracker pendingStartCalibration].
  destruct results as [[[|landmarks others]|]];
    try reflexivity.
  destruct (processResults_face_full atan2 round t landmarks others Hcal Hlen)
    as [-> | ->]; reflexivity.
Qed.

(** X17.  A tracker that is stopped after a completed calibration still
    holds its [calibrationFrames] samples, so it neither collects nor
    classifies: every frame that arrives afterwards leaves it exactly as it
    is, until [recalibrate] empties the window. *)
Theorem stopped_tracker_ignores_frames (t : Tracker) (pending : nat)
  (events : list Event) :
  length (calibrationSamples t) = calibrationFrames ->
  forallb isFrame events = true ->
  run atan2 round (mkWorld (stopHeadTracking t) pending) events
  = Some (mkWorld (stopHeadTracking t) pending).
Proof.
  intros Hlen Hframes.
  induction events as [|e events IH]; [ reflexivity | ].
  simpl in Hframes. apply andb_true_iff in Hframes as [He Hframes].
  destruct e as [ | results | | | ]; try discriminate He.
  cbn [run]. rewrite step_frame_full;
    [ exact (IH Hframes) | reflexivity
    | cbn [stopHeadTracking calibrationSamples]; lia ].
Qed.

End RunProperties.

Lemma reachable_window_invariant_witness :
  exists w',
    run atan2_below round_small (mkWorld constructor 0)
        (InitDone :: repeat (Frame faceFrame) 62) = Some w' /\
    (length (poseHistory (tracker w')) <= maxHistoryLength)%nat /\
    currentHeadPose (tracker w') = getSmoothedPose (tracker w').
Proof.
  destruct (run atan2_below round_small (mkWorld constructor 0)
              (InitDone :: repeat (Frame faceFrame) 62)) as [w'|] eqn:Hrun;
    [ | vm_compute in Hrun; discriminate Hrun ].
  exists w'. split; [ reflexivity | ].
  exact (reachable_window_invariant atan2_below round_small 0
           (InitDone :: repeat (Frame faceFrame) 62) w' Hrun).
Defined.

Lemma uninitialised_is_silent_witness :
  exists w',
    run atan2_below round_small (mkWorld (stopHeadTracking activeUp) 0)
        [Frame faceFrame; ClickCalibrate; StartCalibrationTimer;
         Frame faceFrame]
    = Some w' /\
    isInitialized (tracker w') = false /\
    getCurrentInput (tracker w') = None.
Proof.
  destruct (run atan2_below round_small (mkWorld (stopHeadTracking activeUp) 0)
              [Frame faceFrame; ClickCalibrate; StartCalibrationTimer;
               Frame faceFrame]) as [w'|] eqn:Hrun;
    [ | vm_compute in Hrun; discriminate Hrun ].
  exists w'. split; [ reflexivity | ].
  exact (uninitialised_is_silent atan2_below round_small
           (mkWorld (stopHeadTracking activeUp) 0) w'
           [Frame faceFrame; ClickCalibrate; StartCalibrationTimer;
            Frame faceFrame] eq_refl eq_refl Hrun).
Defined.

Lemma calibration_is_frozen_witness :
  exists w',
    run atan2_below round_small (mkWorld activeUp 1)
        [Frame faceFrame; StartCalibrationTimer; InitDone; Frame emptyFrame]
    = Some w' /\
    isCalibrated (tracker w') = true /\
    upThreshold (tracker w') = upThreshold activeUp /\
    downThreshold (tracker w') = downThreshold activeUp /\
    neutralPosition (tracker w') = neutralPosition activeUp.
Proof.
  destruct (run atan2_below round_small (mkWorld activeUp 1)
              [Frame faceFrame; StartCalibrationTimer; InitDone;
               Frame emptyFrame]) as [w'|] eqn:Hrun;
    [ | vm_compute in Hrun; discriminate Hrun ].
  exists w'. split; [ reflexivity | ].
  exact (calibration_is_frozen atan2_below round_small
           (mkWorld activeUp 1) w'
           [Frame faceFrame; StartCalibrationTimer; InitDone; Frame emptyFrame]
           eq_refl eq_refl Hrun).
Defined.

Lemma uncalibrated_window_stays_empty_witness :
  exists w',
    run atan2_below round_small (mkWorld (recalibrate activeUp) 1)
        [Frame faceFrame; StartCalibrationTimer; Frame faceFrame]
    = Some w' /\
    isCalibrated (tracker w') = false /\
    poseHistory (tracker w') = [] /\
    currentHeadPose (tracker w') = neutral.
Proof.
  destruct (run atan2_below round_small (mkWorld (recalibrate activeUp) 1)
              [Frame faceFrame; StartCalibrationTimer; Frame faceFrame])
    as [w'|] eqn:Hrun;
    [ | vm_compute in Hrun; discriminate Hrun ].
  exists w'. split; [ reflexivity | ].
  apply (uncalibrated_window_stays_empty atan2_below round_small
           (mkWorld (recalibrate activeUp) 1) w'
           [Frame faceFrame; StartCalibrationTimer; Frame faceFrame]);
    [ reflexivity | reflexivity | reflexivity | vm_compute; lia | exact Hrun ].
Defined.


Lemma stopped_tracker_ignores_frames_witness :
  run atan2_below round_small (mkWorld (stopHeadTracking (collecting 60 2)) 0)
      [Frame faceFrame; Frame emptyFrame; Frame faceFrame]
  = Some (mkWorld (stopHeadTracking (collecting 60 2)) 0).
Proof.
  apply (stopped_tracker_ignores_frames atan2_below round_small
           (collecting 60 2) 0
           [Frame faceFrame; Frame emptyFrame; Frame faceFrame]);
    reflexivity.
Defined.

(** ** Ties in the vote *)

Lemma addWeight_key_order (counts : Counts) (p : Pose) (w : Z) :
  map fst (addWeight counts p w)
  = if existsb (pose_eqb p) (map fst counts) then map fst counts
    else map fst counts ++ [p].
Proof.
  induction counts as [|[k v] rest IH]; simpl.
  - reflexivity.
  - rewrite (pose_eqb_sym p k).
    destruct (pose_eqb k p); simpl; [ reflexivity | ].
    rewrite IH. destruct (existsb (pose_eqb p) (map fst rest)); reflexivity.
Qed.

Lemma countFrom_key_order (poses : list Pose) (len index : nat)
  (counts : Counts) :
  map fst (countFrom len index poses counts)
  = fold_left
      (fun seen pose =>
         if existsb (pose_eqb pose) seen then seen else seen ++ [pose])
      poses (map fst counts).
Proof.
  revert index counts.
  induction poses as [|q rest IH]; intros index counts; simpl.
  - reflexivity.
  - rewrite IH, addWeight_key_order. reflexivity.
Qed.

Lemma countPoses_key_order (h : list Pose) :
  map fst (countPoses h) = seenOrder h.
Proof. apply countFrom_key_order. Qed.

(** The first entry of a given weight, read off the keys. *)
Lemma first_of_weight (entries : Counts) (vote : Pose -> Z) (w : Z)
  (top : Pose * Z) (others : Counts) :
  (forall e, In e entries -> snd e = vote (fst e)) ->
  ofWeight w entries = top :: others ->
  find (fun l => (vote l =? w)%Z) (map fst entries) = Some (fst top).
Proof.
  unfold ofWeight.
  induction entries as [|e entries IH]; simpl; intros Hvote Hfilter.
  - discriminate Hfilter.
  - rewrite <- (Hvote e (or_introl eq_refl)).
    destruct (snd e =? w)%Z.
    + injection Hfilter as -> _. reflexivity.
    + apply IH; [ | exact Hfilter ].
      intros e' He'. apply Hvote. right. exact He'.
Qed.

(** X18.  Ties go to the label that entered the window first: among the
    labels in the order of their first occurrence in the pose history, the
    smoothed pose is the first one whose vote equals the maximal vote. *)
Theorem getSmoothedPose_first_seen_wins (t : Tracker) :
  poseHistory t <> [] ->
  find (fun l =>
          (voteFor (poseHistory t) l
           =? voteFor (poseHistory t) (getSmoothedPose t))%Z)
       (seenOrder (poseHistory t))
  = Some (getSmoothedPose t).
Proof.
  intros Hne.
  destruct (getSmoothedPose_top t Hne)
    as (top & rest & Hsorted & _ & -> & Htop & _).
  rewrite <- Htop, <- countPoses_key_order.
  destruct (sortEntries_stable_sort (countPoses (poseHistory t)))
    as (_ & _ & Hstable).
  specialize (Hstable (snd top)). rewrite Hsorted in Hstable.
  unfold ofWeight in Hstable at 1. cbn [filter] in Hstable.
  rewrite Z.eqb_refl in Hstable.
  apply (first_of_weight _ (voteFor (poseHistory t)) (snd top) top
           (filter (fun e => (snd e =? snd top)%Z) rest)).
  - intros [k v] He. cbn [fst snd].
    rewrite <- countPoses_voteFor. symmetry.
    apply weightOf_In; [ apply countFrom_NoDup; constructor | exact He ].
  - symmetry. exact Hstable.
Qed.

Lemma getSmoothedPose_first_seen_wins_witness :
  find (fun l =>
          (voteFor (poseHistory (withHistory [down; down; up])) l
           =? voteFor (poseHistory (withHistory [down; down; up]))
                (getSmoothedPose (withHistory [down; down; up])))%Z)
       (seenOrder (poseHistory (withHistory [down; down; up])))
  = Some (getSmoothedPose (withHistory [down; down; up])).
Proof.
  apply (getSmoothedPose_first_seen_wins (withHistory [down; down; up])).
  discriminate.
Defined.

(** ** The game's use of the tracker *)

Lemma truthy_orElse (a b : JsFlag) :
  truthy (orElse a b) = truthy a || truthy b.
Proof. destruct a as [[]|], b as [[]|]; reflexivity. Qed.

Lemma getInput_pressed (keys : InputManager.Keys) :
  match InputManager.getInput keys with
  | Some _ => existsb (fun code => truthy (keys code)) mappedCodes = true
  | None => existsb (fun code => truthy (keys code)) mappedCodes = false
  end.
Proof.
  unfold InputManager.getInput. cbn [InputManager.up InputManager.down
                                    InputManager.left InputManager.right].
  rewrite !truthy_orElse. cbn [mappedCodes existsb].
  destruct (truthy (keys "Space"%string)), (truthy (keys "ArrowUp"%string)),
           (truthy (keys "KeyW"%string)), (truthy (keys "ArrowDown"%string)),
           (truthy (keys "KeyS"%string)), (truthy (keys "ArrowLeft"%string)),
           (truthy (keys "KeyA"%string)), (truthy (keys "ArrowRight"%string)),
           (truthy (keys "KeyD"%string)); reflexivity.
Qed.

(** X19.  The keyboard comes first: while one of the nine mapped keys is
    held down, the tick's input is the keyboard's object, whatever the
    tracker reports; with none of them down, it is what [getCurrentInput]
    returns, and the basic gaze tracker is asked only when that is [null]
    (or no head tracker exists). *)
Theorem keyboard_before_tracker (keys : InputManager.Keys)
  (simpleHeadTracker : option Tracker) (currentGaze : option Input.t) :
  (existsb (fun code => truthy (keys code)) mappedCodes = true ->
   exists input,
     InputManager.getInput keys = Some input /\
     selectInput keys simpleHeadTracker currentGaze = Some (FromKeys input)) /\
  (existsb (fun code => truthy (keys code)) mappedCodes = false ->
   selectInput keys simpleHeadTracker currentGaze
   = match simpleHeadTracker with
     | Some t =>
         match getCurrentInput t with
         | Some input => Some (FromHead input)
         | None => option_map FromHead currentGaze
         end
     | None => option_map FromHead currentGaze
     end).
Proof.
  pose proof (getInput_pressed keys) as H. unfold selectInput.
  destruct (InputManager.getInput keys) as [input|]; split; intros Hk.
  - exists input. split; reflexivity.
  - congruence.
  - congruence.
  - destruct simpleHeadTracker as [t|]; reflexivity.
Qed.

Lemma released_keys_silent (keys : InputManager.Keys) (code : string)
  (codes : list string) :
  existsb (fun c => truthy (keys c)) codes = false ->
  existsb (fun c => truthy (InputManager.handleKeyUp
                              (InputManager.handleKeyDown keys code) code c))
          codes = false.
Proof.
  induction codes as [|c codes IH]; simpl; intros H.
  - reflexivity.
  - apply orb_false_iff in H as [Hc Hrest].
    rewrite (IH Hrest), orb_false_r.
    unfold InputManager.handleKeyUp, InputManager.handleKeyDown.
    destruct (String.eqb c code); [ reflexivity | exact Hc ].
Qed.

Lemma pressed_key_heard (keys : InputManager.Keys) (code : string)
  (codes : list string) :
  In code codes ->
  existsb (fun c => truthy (InputManager.handleKeyDown keys code c)) codes
  = true.
Proof.
  intros Hin. apply existsb_exists. exists code. split; [ exact Hin | ].
  unfold InputManager.handleKeyDown. rewrite String.eqb_refl. reflexivity.
Qed.

(** X20.  Pressing one of the mapped keys makes [getInput] return the
    keyboard's object, so the keyboard takes the tick; when no mapped key
    was down before, pressing and releasing a key leaves [getInput] at
    [null] again, so the tracker is back in control. *)
Theorem key_press_and_release (keys : InputManager.Keys) (code : string) :
  In code mappedCodes ->
  InputManager.getInput (InputManager.handleKeyDown keys code) <> None /\
  (InputManager.getInput keys = None ->
   InputManager.getInput
     (InputManager.handleKeyUp (InputManager.handleKeyDown keys code) code)
   = None).
Proof.
  intros Hin. split.
  - pose proof (getInput_pressed (InputManager.handleKeyDown keys code)) as H.
    rewrite (pressed_key_heard keys code mappedCodes Hin) in H.
    destruct (InputManager.getInput (InputManager.handleKeyDown keys code)).
    + discriminate.
    + discriminate H.
  - intros Hnone.
    pose proof (getInput_pressed keys) as H. rewrite Hnone in H.
    pose proof (getInput_pressed
                  (InputManager.handleKeyUp
                     (InputManager.handleKeyDown keys code) code)) as H'.
    rewrite (released_keys_silent keys code mappedCodes H) in H'.
    destruct (InputManager.getInput
                (InputManager.handleKeyUp
                   (InputManager.handleKeyDown keys code) code)).
    + discriminate H'.
    + reflexivity.
Qed.

Lemma key_press_and_release_witness :
  InputManager.getInput
    (InputManager.handleKeyDown InputManager.noKeys "ArrowDown") <> None /\
  InputManager.getInput
    (InputManager.handleKeyUp
       (InputManager.handleKeyDown InputManager.noKeys "ArrowDown")
       "ArrowDown")
  = None.
Proof.
  destruct (key_press_and_release InputManager.noKeys "ArrowDown")
    as [Hdown Hup].
  - simpl. auto 10.
  - split; [ exact Hdown | apply Hup; reflexivity ].
Defined.

Lemma keyboard_before_tracker_witness :
  selectInput InputManager.noKeys (Some activeUp) None
  = Some (FromHead {| Input.up := true; Input.down := false;
                      Input.left := false; Input.right := false |}) /\
  exists input,
    InputManager.getInput
      (InputManager.handleKeyDown InputManager.noKeys "KeyS") = Some input /\
    selectInput (InputManager.handleKeyDown InputManager.noKeys "KeyS")
                (Some activeUp) None
    = Some (FromKeys input).
Proof.
  destruct (keyboard_before_tracker InputManager.noKeys (Some activeUp) None)
    as [_ Hidle].
  destruct (keyboard_before_tracker
              (InputManager.handleKeyDown InputManager.noKeys "KeyS")
              (Some activeUp) None) as [Hheld _].
  split.
  - rewrite Hidle; reflexivity.
  - apply Hheld. reflexivity.
Defined.

Lemma keyboard_idle_selects (keys : InputManager.Keys)
  (simpleHeadTracker : option Tracker) (currentGaze : option Input.t) :
  existsb (fun code => truthy (keys code)) mappedCodes = false ->
  (forall t, simpleHeadTracker = Some t ->
     selectInput keys simpleHeadTracker currentGaze
     = match getCurrentInput t with
       | Some input => Some (FromHead input)
       | None => option_map FromHead currentGaze
       end) /\
  (simpleHeadTracker = None ->
   selectInput keys simpleHeadTracker currentGaze
   = option_map FromHead currentGaze).
Proof.
  intros Hidle. pose proof (getInput_pressed keys) as H. unfold selectInput.
  destruct (InputManager.getInput keys) as [input|]; [ congruence | ].
  split; [ intros t -> | intros -> ]; reflexivity.
Qed.

Lemma getCurrentInput_of_pose (t : Tracker) :
  isInitialized t = true ->
  isCalibrated t = true ->
  getCurrentInput t
  = match currentHeadPose t with
    | neutral => None
    | pose =>
        Some {| Input.up := pose_eqb pose up; Input.down := pose_eqb pose down;
                Input.left := false; Input.right := false |}
    end.
Proof.
  intros Hinit Hcal. unfold getCurrentInput. rewrite Hinit, Hcal.
  destruct (currentHeadPose t); reflexivity.
Qed.

(** X21.  With no mapped key down, an active tracker's command reaches the
    gazelle in the same tick.  On the ground, the command [down] makes it
    duck.  The command [up] makes it jump (a big jump when a large rock lies
    within 200 ahead), unless it is ducking: then the tick only makes it
    stand up. *)
Theorem head_command_moves_gazelle (keys : InputManager.Keys) (t : Tracker)
  (currentGaze : option Input.t) (g : Gazelle.t)
  (obstacles : list Obstacle.t) :
  existsb (fun code => truthy (keys code)) mappedCodes = false ->
  isInitialized t = true ->
  isCalibrated t = true ->
  Gazelle.onGround g = true ->
  let g' :=
    Gazelle.handleInput g (selectInput keys (Some t) currentGaze) obstacles in
  (currentHeadPose t = down ->
   Gazelle.state g' = Gazelle.ducking /\
   Gazelle.targetY g' = Gazelle.duckY /\
   Gazelle.onGround g' = true) /\
  (currentHeadPose t = up -> Gazelle.state g <> Gazelle.ducking ->
   Gazelle.state g' = Gazelle.jumping /\
   Gazelle.onGround g' = false /\
   Gazelle.velocityY g'
   = if existsb (fun o =>
                   String.eqb (Obstacle.type o) "largeRock"
                   && (100 <? Obstacle.x o) && (Obstacle.x o <? 100 + 200))
                obstacles
     then Gazelle.bigJumpPower else Gazelle.jumpPower) /\
  (currentHeadPose t = up -> Gazelle.state g = Gazelle.ducking ->
   Gazelle.state g' = Gazelle.running /\
   Gazelle.onGround g' = true /\
   Gazelle.velocityY g' = Gazelle.velocityY g).
Proof.
  intros Hkeys Hinit Hcal Hground g'. subst g'.
  destruct (keyboard_idle_selects keys (Some t) currentGaze Hkeys) as [Hsel _].
  rewrite (Hsel t eq_refl), (getCurrentInput_of_pose t Hinit Hcal).
  destruct g as [gx gy vy vx og st af tm ln ty].
  cbn [Gazelle.onGround Gazelle.state Gazelle.velocityY] in *. subst og.
  split; [ | split ].
  - intros ->. destruct st; repeat split.
  - intros -> Hstate. destruct st; try congruence; repeat split.
  - intros -> ->. repeat split.
Qed.

Lemma head_command_moves_gazelle_witness :
  Gazelle.state
    (Gazelle.handleInput Gazelle.constructor
       (selectInput InputManager.noKeys
          (Some (set_currentHeadPose (withHistory [down; down]) down)) None)
       [])
  = Gazelle.ducking /\
  Gazelle.state
    (Gazelle.handleInput Gazelle.constructor
       (selectInput InputManager.noKeys (Some activeUp) None)
       [Obstacle.update (Obstacle.constructor "largeRock") 600])
  = Gazelle.jumping /\
  Gazelle.velocityY
    (Gazelle.handleInput Gazelle.constructor
       (selectInput InputManager.noKeys (Some activeUp) None)
       [Obstacle.update (Obstacle.constructor "largeRock") 600])
  = Gazelle.bigJumpPower.
Proof.
  destruct (head_command_moves_gazelle InputManager.noKeys
              (set_currentHeadPose (withHistory [down; down]) down) None
              Gazelle.constructor [] eq_refl eq_refl eq_refl eq_refl)
    as [Hduck _].
  destruct (head_command_moves_gazelle InputManager.noKeys activeUp None
              Gazelle.constructor
              [Obstacle.update (Obstacle.constructor "largeRock") 600]
              eq_refl eq_refl eq_refl eq_refl)
    as (_ & Hjump & _).
  destruct (Hduck eq_refl) as (Hstate & _).
  destruct (Hjump eq_refl ltac:(discriminate)) as (Hjumping & _ & Hvelocity).
  split; [ exact Hstate | split; [ exact Hjumping | exact Hvelocity ] ].
Defined.

(** X22.  In the air, input changes nothing but the fixed lane and x
    position: the gazelle can neither jump again nor duck, and keeps its
    state and its velocity, whatever the input. *)
Theorem airborne_input_ignored (g : Gazelle.t) (input : option GameInput)
  (obstacles : list Obstacle.t) :
  Gazelle.onGround g = false ->
  Gazelle.handleInput g input obstacles
  = {| Gazelle.x := 100; Gazelle.y := Gazelle.y g;
       Gazelle.velocityY := Gazelle.velocityY g;
       Gazelle.velocityX := Gazelle.velocityX g;
       Gazelle.onGround := false;
       Gazelle.state := Gazelle.state g;
       Gazelle.animationFrame := Gazelle.animationFrame g;
       Gazelle.animationTimer := Gazelle.animationTimer g;
       Gazelle.lane := 1;
       Gazelle.targetY := Gazelle.targetY g |}.
Proof.
  intros Hair. destruct g as [gx gy vy vx og st af tm ln ty].
  cbn [Gazelle.onGround] in Hair. subst og.
  unfold Gazelle.handleInput.
  destruct input as [input|]; cbn.
  - destruct (inputUp input), (inputDown input), st; reflexivity.
  - destruct st; reflexivity.
Qed.

Lemma airborne_input_ignored_witness :
  Gazelle.handleInput
    (Gazelle.jump Gazelle.constructor false)
    (Some (FromHead {| Input.up := true; Input.down := false;
                       Input.left := false; Input.right := false |})) []
  = {| Gazelle.x := 100; Gazelle.y := 300;
       Gazelle.velocityY := Gazelle.jumpPower;
       Gazelle.velocityX := 2;
       Gazelle.onGround := false;
       Gazelle.state := Gazelle.jumping;
       Gazelle.animationFrame := 0;
       Gazelle.animationTimer := 0;
       Gazelle.lane := 1;
       Gazelle.targetY := 300 |}.
Proof.
  apply (airborne_input_ignored (Gazelle.jump Gazelle.constructor false)).
  reflexivity.
Defined.

Lemma handleInput_invariant (g : Gazelle.t) (input : option GameInput)
  (obstacles : list Obstacle.t) :
  gazelleInvariant g -> gazelleInvariant (Gazelle.handleInput g input obstacles).
Proof.
  unfold gazelleInvariant.
  destruct g as [gx gy vy vx og st af tm ln ty].
  cbn [Gazelle.onGround Gazelle.state Gazelle.y]. intros [Hstate Hy].
  unfold Gazelle.handleInput.
  destruct input as [input|]; cbn;
    [ destruct (inputUp input), (inputDown input) | ];
    destruct og, st; cbn; intuition congruence.
Qed.

Lemma updatePhysics_invariant (g : Gazelle.t) :
  gazelleInvariant g -> gazelleInvariant (Gazelle.updatePhysics g).
Proof.
  unfold gazelleInvariant.
  destruct g as [gx gy vy vx og st af tm ln ty].
  cbn [Gazelle.onGround Gazelle.state Gazelle.y]. intros [Hstate Hy].
  unfold Gazelle.updatePhysics. cbn [Gazelle.onGround negb].
  destruct og; cbn [negb].
  - cbn. split; [ exact Hstate | reflexivity ].
  - cbn [Gazelle.y Gazelle.velocityY Gazelle.x Gazelle.velocityX Gazelle.state].
    assert (Hjumping : st = Gazelle.jumping) by (apply Hstate; reflexivity).
    subst st.
    destruct (Gazelle.groundY <=? gy + (vy + Gazelle.gravity)); cbn;
      intuition congruence.
Qed.

Lemma update_invariant (g : Gazelle.t) (input : option GameInput)
  (obstacles : list Obstacle.t) :
  gazelleInvariant g -> gazelleInvariant (Gazelle.update g input obstacles).
Proof.
  intros H. unfold Gazelle.update.
  pose proof (updatePhysics_invariant _
                (handleInput_invariant g input obstacles H)) as H'.
  exact H'.
Qed.

Lemma playTicks_invariant (ticks : list Tick) (g : Gazelle.t) :
  gazelleInvariant g -> gazelleInvariant (playTicks g ticks).
Proof.
  revert g. induction ticks as [|tick ticks IH]; intros g H.
  - exact H.
  - apply IH. apply update_invariant. exact H.
Qed.

(** X23.  After any number of ticks from a new gazelle, with any inputs and
    obstacles: the gazelle is off the ground exactly when its state is
    jumping (so it never ducks in the air and never jumps out of a duck),
    and on the ground its [y] is [groundY]. *)
Theorem gazelle_state_invariant (ticks : list Tick) :
  (Gazelle.onGround (playTicks Gazelle.constructor ticks) = false
   <-> Gazelle.state (playTicks Gazelle.constructor ticks) = Gazelle.jumping)
  /\ (Gazelle.onGround (playTicks Gazelle.constructor ticks) = true ->
      Gazelle.y (playTicks Gazelle.constructor ticks) = Gazelle.groundY).
Proof.
  apply (playTicks_invariant ticks Gazelle.constructor).
  unfold gazelleInvariant. cbn. intuition congruence.
Qed.

Lemma movedObstacle_shape (speeds : list float) (o : Obstacle.t) :
  Obstacle.type (fold_left Obstacle.update speeds o) = Obstacle.type o /\
  Obstacle.y (fold_left Obstacle.update speeds o) = Obstacle.y o /\
  Obstacle.width (fold_left Obstacle.update speeds o) = Obstacle.width o /\
  Obstacle.height (fold_left Obstacle.update speeds o) = Obstacle.height o.
Proof.
  revert o. induction speeds as [|v speeds IH]; intros o.
  - repeat split.
  - cbn [fold_left]. destruct (IH (Obstacle.update o v)) as (-> & -> & -> & ->).
    repeat split.
Qed.

(** X24.  A gazelle on the ground, ducking or not, never meets a bar: after
    any ticks of play and wherever the bar has moved to, their rectangles
    do not intersect, because the bar's rectangle ends at 263 and the
    gazelle's begins at 308 (320 when ducking).  Ducking therefore never
    decides a collision. *)
Theorem grounded_gazelle_clears_bars (ticks : list Tick)
  (bars : list (list float)) :
  Gazelle.onGround (playTicks Gazelle.constructor ticks) = true ->
  collides (playTicks Gazelle.constructor ticks)
           (map (movedObstacle "bar") bars) = false.
Proof.
  intros Hground.
  destruct (playTicks_invariant ticks Gazelle.constructor) as [_ Hy];
    [ unfold gazelleInvariant; cbn; intuition congruence | ].
  specialize (Hy Hground).
  unfold collides.
  apply not_true_is_false. intros Hex.
  apply existsb_exists in Hex as (bar & Hin & Hhit).
  apply in_map_iff in Hin as (speeds & <- & _).
  unfold movedObstacle in Hhit.
  destruct (movedObstacle_shape speeds (Obstacle.constructor "bar"))
    as (Htype & Hoy & _ & Hheight).
  unfold rectIntersect, Obstacle.getBoundingRect, Gazelle.getBoundingRect
    in Hhit.
  rewrite Htype in Hhit. cbn [Obstacle.constructor Obstacle.type] in Hhit.
  change (String.eqb "bar" "rock") with false in Hhit.
  change (String.eqb "bar" "largeRock") with false in Hhit.
  change (String.eqb "bar" "bar") with true in Hhit.
  cbn [Rect.x Rect.y Rect.width Rect.height] in Hhit.
  rewrite Hoy, Hheight in Hhit.
  destruct (Gazelle.state_eqb _ Gazelle.ducking);
    cbn [Rect.x Rect.y Rect.width Rect.height] in Hhit;
    rewrite Hy in Hhit;
    apply andb_true_iff in Hhit as [Hhit _];
    apply andb_true_iff in Hhit as [_ Hhit];
    vm_compute in Hhit; discriminate Hhit.
Qed.

Lemma grounded_gazelle_clears_bars_witness :
  collides
    (playTicks Gazelle.constructor
       [(Some (FromHead {| Input.up := false; Input.down := true;
                           Input.left := false; Input.right := false |}), [])])
    (map (movedObstacle "bar") [[2; 2; 2]; repeat 2.5 300]) = false.
Proof.
  apply (grounded_gazelle_clears_bars
           [(Some (FromHead {| Input.up := false; Input.down := true;
                               Input.left := false; Input.right := false |}),
             [])]
           [[2; 2; 2]; repeat 2.5 300]).
  reflexivity.
Defined.

(** ** The two smoothers *)

Lemma asPose_eqb (a b : GazeTracker.Gaze) :
  pose_eqb (asPose a) (asPose b) = GazeTracker.gaze_eqb a b.
Proof. destruct a, b; reflexivity. Qed.

Lemma addWeight_asPose (counts : GazeTracker.Counts) (g : GazeTracker.Gaze)
  (w : Z) :
  addWeight (map asPoseEntry counts) (asPose g) w
  = map asPoseEntry (GazeTracker.addWeight counts g w).
Proof.
  induction counts as [|[k v] rest IH]; simpl.
  - reflexivity.
  - rewrite asPose_eqb. destruct (GazeTracker.gaze_eqb k g); simpl.
    + reflexivity.
    + rewrite IH. reflexivity.
Qed.

Lemma countFrom_asPose (gazes : list GazeTracker.Gaze) (len index : nat)
  (counts : GazeTracker.Counts) :
  countFrom len index (map asPose gazes) (map asPoseEntry counts)
  = map asPoseEntry (GazeTracker.countFrom len index gazes counts).
Proof.
  revert index counts.
  induction gazes as [|g rest IH]; intros index counts; simpl.
  - reflexivity.
  - rewrite addWeight_asPose, IH. reflexivity.
Qed.

Lemma countPoses_asPose (gazes : list GazeTracker.Gaze) :
  countPoses (map asPose gazes)
  = map asPoseEntry (GazeTracker.countGazes gazes).
Proof.
  unfold countPoses, GazeTracker.countGazes. rewrite length_map.
  exact (countFrom_asPose gazes (length gazes) 0 []).
Qed.

Lemma insertSorted_asPose (e : GazeTracker.Gaze * Z)
  (sorted : GazeTracker.Counts) :
  insertSorted (asPoseEntry e) (map asPoseEntry sorted)
  = map asPoseEntry (GazeTracker.insertSorted e sorted).
Proof.
  induction sorted as [|a rest IH]; simpl.
  - reflexivity.
  - unfold byWeightDesc. cbn [asPoseEntry snd].
    destruct (0 <? snd e - snd a)%Z; simpl.
    + reflexivity.
    + rewrite IH. reflexivity.
Qed.

Lemma sortEntries_asPose (entries : GazeTracker.Counts) :
  sortEntries (map asPoseEntry entries)
  = map asPoseEntry (GazeTracker.sortEntries entries).
Proof.
  unfold sortEntries, GazeTracker.sortEntries.
  change (@nil (Pose * Z)) with (map asPoseEntry []).
  generalize (@nil (GazeTracker.Gaze * Z)).
  induction entries as [|e entries IH]; intros sorted; simpl.
  - reflexivity.
  - rewrite insertSorted_asPose. apply IH.
Qed.

Lemma lookup_asPose (counts : GazeTracker.Counts) (g : GazeTracker.Gaze) :
  GazeTracker.lookup counts g = weightOf (map asPoseEntry counts) (asPose g).
Proof.
  induction counts as [|[k v] rest IH]; simpl.
  - reflexivity.
  - rewrite asPose_eqb. destruct (GazeTracker.gaze_eqb k g); [ reflexivity | exact IH ].
Qed.

Lemma getSmoothedGaze_nonempty (gazeHistory : list GazeTracker.Gaze) :
  gazeHistory <> [] ->
  GazeTracker.getSmoothedGaze gazeHistory
  = let counts := GazeTracker.countGazes gazeHistory in
    match GazeTracker.sortEntries counts with
    | topGaze :: _ =>
        if (2 <=? GazeTracker.lookup counts (fst topGaze))%Z
           || match nth_error gazeHistory (length gazeHistory - 1) with
              | Some latest => GazeTracker.gaze_eqb latest (fst topGaze)
              | None => false
              end
        then fst topGaze
        else GazeTracker.center
    | [] => GazeTracker.center
    end.
Proof.
  intros Hne. destruct gazeHistory; [ congruence | reflexivity ].
Qed.

(** X25.  The basic gaze tracker's smoother and the head tracker's
    smoother are the same function: on any window, with ['center'] read as
    ['neutral'], [getSmoothedGaze] returns what [getSmoothedPose] returns.
    In particular the gaze tracker's fallback to ['center'] is never
    taken for a non-empty window: it always returns the top entry. *)
Theorem smoothers_agree (t : Tracker) (gazeHistory : list GazeTracker.Gaze) :
  poseHistory t = map asPose gazeHistory ->
  asPose (GazeTracker.getSmoothedGaze gazeHistory) = getSmoothedPose t /\
  (gazeHistory <> [] ->
   exists topGaze others,
     GazeTracker.sortEntries (GazeTracker.countGazes gazeHistory)
     = topGaze :: others /\
     GazeTracker.getSmoothedGaze gazeHistory = fst topGaze).
Proof.
  intros Hh.
  destruct (list_eq_dec
              (fun a b : GazeTracker.Gaze =>
                 ltac:(decide equality) : {a = b} + {a <> b})
              gazeHistory []) as [-> | Hg].
  - split; [ | congruence ].
    unfold getSmoothedPose. rewrite Hh. reflexivity.
  - assert (Hne : poseHistory t <> []).
    { rewrite Hh. destruct gazeHistory; [ congruence | discriminate ]. }
    destruct (getSmoothedPose_top t Hne)
      as (top & rest & Hsorted & Hconf & Hout & Htop & _).
    rewrite Hh, countPoses_asPose, sortEntries_asPose in Hsorted.
    destruct (GazeTracker.sortEntries (GazeTracker.countGazes gazeHistory))
      as [|topGaze others] eqn:HsortedG; [ discriminate Hsorted | ].
    cbn [map] in Hsorted. injection Hsorted as Htopeq _.
    assert (Hlookup : GazeTracker.lookup (GazeTracker.countGazes gazeHistory)
                        (fst topGaze) = snd top).
    { rewrite lookup_asPose, <- countPoses_asPose, <- Hh.
      rewrite countPoses_voteFor, Htop, <- Htopeq. reflexivity. }
    assert (Hresult : GazeTracker.getSmoothedGaze gazeHistory = fst topGaze).
    { rewrite (getSmoothedGaze_nonempty gazeHistory Hg).
      cbn zeta. rewrite HsortedG, Hlookup.
      unfold minConfidenceFrames in Hconf. apply Z.leb_le in Hconf.
      rewrite Hconf. reflexivity. }
    split.
    + rewrite Hresult, Hout, <- Htopeq. reflexivity.
    + intros _. exists topGaze, others. split; [ reflexivity | exact Hresult ].
Qed.

Lemma smoothers_agree_witness :
  asPose (GazeTracker.getSmoothedGaze
            [GazeTracker.center; GazeTracker.up; GazeTracker.up])
  = getSmoothedPose (withHistory [neutral; up; up]) /\
  GazeTracker.getSmoothedGaze
    [GazeTracker.center; GazeTracker.center; GazeTracker.down]
  = GazeTracker.center.
Proof.
  destruct (smoothers_agree (withHistory [neutral; up; up])
              [GazeTracker.center; GazeTracker.up; GazeTracker.up] eq_refl)
    as [Hsame _].
  destruct (smoothers_agree (withHistory [neutral; neutral; down])
              [GazeTracker.center; GazeTracker.center; GazeTracker.down]
              eq_refl)
    as [_ Htop].
  split; [ exact Hsame | ].
  destruct Htop as (topGaze & others & Hsorted & ->); [ discriminate | ].
  vm_compute in Hsorted. injection Hsorted as <- _. reflexivity.
Defined.
